(** * Text Comparator: the diff alignment and highlighting engine

    A shallow embedding of [src/textComparatorPanel.ts]: the preprocessing
    of the two texts (lines 166-179), the detection of modified blocks
    (lines 187-216), the emission of the two columns (lines 218-330) and
    the word-level highlighter [_processLineWithWordDiff] (lines 653-695).

    Texts are JavaScript strings, modelled as lists of code units.  The
    model covers the code units U+0000 to U+00FF, one [ascii] each: on that
    range the class [\s] and [toLowerCase] act unit by unit, as written
    below.  On all 16-bit code units [toLowerCase] does not; the properties
    that depend on what it does to a text are stated over any code units,
    with [toLowerCase] as a parameter ([normalizeOver]).  The two functions
    of the [diff] package, [diffLines] and [diffWordsWithSpace], are not
    part of the repository; they are parameters of the development.

    The code builds the two columns as HTML strings.  They are modelled as
    such ([_getHtmlForWebview], [_processLineWithWordDiff]) and, next to
    that, as lists of rows and spans ([compareRows], [lineSpans]); the
    strings are the rows rendered ([getHtmlForWebview_rows],
    [processLine_renders_spans]), and the properties are stated on the
    rows.

    The second part of the file adds the script of the page, which the
    method writes into the HTML (navigation between diffs, lines 503-531;
    editing and saving, lines 533-619), the message handler of the panel
    (lines 89-119), and the quick pick of the command
    [text-comparator.compare] of the extension's entry point.  The calls of
    the editor's API appear as effects; the answers of its dialogs are
    parameters.  The life cycle of the panel ([createOrShow], [dispose]) is
    left out: what it does is decided by the editor's API. *)

From Stdlib Require Import String Ascii DecimalString NArith ZArith Bool Arith Lia List.
Import ListNotations.

(** ** Strings *)

Definition str := list ascii.

Definition lit (s : string) : str := list_ascii_of_string s.

(** The line feed, the separator of [split("\n")]. *)
Definition nl : ascii := ascii_of_N 10.
Definition space : ascii := ascii_of_N 32.
Definition dquote : ascii := ascii_of_N 34.

Definition isEmpty (s : str) : bool :=
  match s with [] => true | _ :: _ => false end.

Definition is_nl (c : ascii) : bool := Ascii.eqb c nl.

(** The regular expression class [\s] on the code units below 256: tab, line
    feed, vertical tab, form feed, carriage return, space and the no-break
    space U+00A0. *)
Definition is_space (c : ascii) : bool :=
  existsb (N.eqb (N_of_ascii c)) [9; 10; 11; 12; 13; 32; 160]%N.

(** [toLowerCase] on one code unit below 256: A-Z, and the capital letters
    U+00C0 to U+00DE without the multiplication sign U+00D7, move up by 32. *)
Definition toLowerUnit (c : ascii) : ascii :=
  let n := N_of_ascii c in
  if ((65 <=? n) && (n <=? 90)
      || (192 <=? n) && (n <=? 222) && negb (n =? 215))%N
  then ascii_of_N (n + 32) else c.

Definition toLowerCase (s : str) : str := map toLowerUnit s.

(** ** Preprocessing (lines 166-179) *)

(** [s.replace(/\s+/g, " ")]: the scanner walks the string left to right;
    [inMatch] says that the current position continues a match of [\s+]
    whose replacement was already written. *)
Fixpoint replaceSpaceRuns (inMatch : bool) (s : str) : str :=
  match s with
  | [] => []
  | c :: rest =>
      if is_space c
      then if inMatch then replaceSpaceRuns true rest
           else space :: replaceSpaceRuns true rest
      else c :: replaceSpaceRuns false rest
  end.

Definition replaceWhitespace (s : str) : str := replaceSpaceRuns false s.

(** The argument handed to [diff.diffLines] for one file, with the branches
    of the source. *)
Definition normalize (ignoreWhitespace ignoreCase : bool) (content : str) : str :=
  if ignoreWhitespace then
    let normalized := replaceWhitespace content in
    if ignoreCase then toLowerCase normalized else normalized
  else
    if ignoreCase then toLowerCase content else content.

(** *** The specification's wording of the two steps *)

(** The maximal runs of a string: consecutive code units of the same kind
    (whitespace or not), each run tagged with its kind. *)
Fixpoint runs (s : str) : list (bool * str) :=
  match s with
  | [] => []
  | c :: rest =>
      match runs rest with
      | (b, w) :: more =>
          if Bool.eqb b (is_space c) then (b, c :: w) :: more
          else (is_space c, [c]) :: (b, w) :: more
      | [] => [(is_space c, [c])]
      end
  end.

Definition collapseRun (r : bool * str) : str :=
  if fst r then [space] else snd r.

(** Every maximal run of whitespace becomes one space. *)
Definition collapseRuns (s : str) : str := concat (map collapseRun (runs s)).

(** A list of tagged runs is a decomposition into maximal runs: no run is
    empty, a run holds code units of its kind only, and neighbours differ in
    kind. *)
Fixpoint maximalRuns (rs : list (bool * str)) : bool :=
  match rs with
  | [] => true
  | (b, w) :: more =>
      negb (isEmpty w) && forallb (fun c => Bool.eqb (is_space c) b) w
      && match more with
         | (b', _) :: _ => negb (Bool.eqb b b')
         | [] => true
         end
      && maximalRuns more
  end.

Definition specNormalize (ignoreWhitespace ignoreCase : bool) (s : str) : str :=
  let s1 := if ignoreWhitespace then collapseRuns s else s in
  if ignoreCase then toLowerCase s1 else s1.

(** *** The same lines over any code units *)

(** A JavaScript string is a sequence of 16-bit code units, and on all of
    them [toLowerCase] does not act unit by unit: it writes the two units
    U+0069 U+0307 for U+0130, and what it writes for a capital sigma depends
    on the letters around it.  For the properties that depend on what
    [toLowerCase] does to a text, lines 166-179 are written once more with
    the code units, the class [\s], the unit U+0020 and [toLowerCase] as
    parameters; [normalize] above is the instance at the code units below
    256. *)
Section AnyUnits.

Variable codeUnit : Type.
Variable isSpace : codeUnit -> bool.
Variable spaceUnit : codeUnit.
Variable lowerCase : list codeUnit -> list codeUnit.

Fixpoint replaceSpaceRunsOver (inMatch : bool) (s : list codeUnit) : list codeUnit :=
  match s with
  | [] => []
  | c :: rest =>
      if isSpace c
      then if inMatch then replaceSpaceRunsOver true rest
           else spaceUnit :: replaceSpaceRunsOver true rest
      else c :: replaceSpaceRunsOver false rest
  end.

Definition replaceWhitespaceOver (s : list codeUnit) : list codeUnit :=
  replaceSpaceRunsOver false s.

Definition normalizeOver (ignoreWhitespace ignoreCase : bool)
    (content : list codeUnit) : list codeUnit :=
  if ignoreWhitespace then
    let normalized := replaceWhitespaceOver content in
    if ignoreCase then lowerCase normalized else normalized
  else
    if ignoreCase then lowerCase content else content.

(** A text in which whitespace is single spaces only: a unit of the class
    [\s] is U+0020, and the unit after it is not of the class. *)
Fixpoint singleSpacesOver (s : list codeUnit) : Prop :=
  match s with
  | [] => True
  | c :: rest =>
      (isSpace c = true ->
       c = spaceUnit
       /\ match rest with
          | d :: _ => isSpace d = false
          | [] => True
          end)
      /\ singleSpacesOver rest
  end.

End AnyUnits.

Arguments replaceSpaceRunsOver {codeUnit}.
Arguments replaceWhitespaceOver {codeUnit}.
Arguments normalizeOver {codeUnit}.
Arguments singleSpacesOver {codeUnit}.

(** The 16-bit code units as numbers, and the class [\s] on them: the
    units of [is_space], U+1680, U+2000 to U+200A, U+2028, U+2029, U+202F,
    U+205F, U+3000 and U+FEFF. *)
Definition jsWhitespace (u : N) : bool :=
  existsb (N.eqb u)
    [9; 10; 11; 12; 13; 32; 160; 5760; 8232; 8233; 8239; 8287; 12288; 65279]%N
  || ((8192 <=? u) && (u <=? 8202))%N.

(** A lower-casing that changes the length of a text: A to Z move up by 32
    and U+0130 becomes U+0069 U+0307, as [toLowerCase] has them; the other
    units are kept. *)
Definition lowerUnits (u : N) : list N :=
  if ((65 <=? u) && (u <=? 90))%N then [(u + 32)%N]
  else if (u =? 304)%N then [105; 775]%N
  else [u].

Definition lowerAsciiAndDottedI (s : list N) : list N := flat_map lowerUnits s.

(** ** The edit script of the [diff] package *)

(** One element of the array returned by [diffLines] or [diffWordsWithSpace]:
    its text and the two flags the code reads. *)
Record Change := mkChange { value : str; added : bool; removed : bool }.

Definition Added (v : str) : Change := mkChange v true false.
Definition Removed (v : str) : Change := mkChange v false true.
Definition Unchanged (v : str) : Change := mkChange v false false.

(** The contract of the two primitives: no element is both added and
    removed; the elements that are not added spell the first text and the
    elements that are not removed spell the second. *)
Definition exclusiveFlags (c : Change) : bool := negb (added c && removed c).

Definition oldText (script : list Change) : str :=
  concat (map value (filter (fun c => negb (added c)) script)).

Definition newText (script : list Change) : str :=
  concat (map value (filter (fun c => negb (removed c)) script)).

(** An element of [processedDiff]: either the object
    [{modified: true, oldValue, newValue}] or an element of the edit script
    pushed as it is. *)
Inductive Processed :=
| Modified (oldValue newValue : str)
| Regular (current : Change).

(** ** Modification detection (lines 187-216) *)

(** The [for] loop of [findModifiedBlocks], with its index [i] and the array
    [processedDiff] it pushes to.  Every turn advances [i], so
    [length lineDiffResult] turns are enough. *)
Fixpoint findModifiedBlocks_loop (fuel : nat) (lineDiffResult : list Change)
    (i : nat) (processedDiff : list Processed) : list Processed :=
  match fuel with
  | 0 => processedDiff
  | S fuel' =>
      match nth_error lineDiffResult i with
      | None => processedDiff
      | Some current =>
          let merged :=
            if removed current && (i + 1 <? length lineDiffResult)
            then match nth_error lineDiffResult (i + 1) with
                 | Some next => if added next then Some next else None
                 | None => None
                 end
            else None in
          match merged with
          | Some next =>
              findModifiedBlocks_loop fuel' lineDiffResult (i + 2)
                (processedDiff ++ [Modified (value current) (value next)])
          | None =>
              findModifiedBlocks_loop fuel' lineDiffResult (i + 1)
                (processedDiff ++ [Regular current])
          end
      end
  end.

Definition findModifiedBlocks (lineDiffResult : list Change) : list Processed :=
  findModifiedBlocks_loop (length lineDiffResult) lineDiffResult 0 [].

(** The specification's wording of step A: one greedy pass, a [Removed]
    element directly followed by an [Added] one becomes a block and the
    cursor moves by two, any other element is kept and the cursor moves by
    one. *)
Fixpoint greedyPass (ops : list Change) : list Processed :=
  match ops with
  | [] => []
  | current :: rest =>
      match rest with
      | next :: rest' =>
          if removed current && added next
          then Modified (value current) (value next) :: greedyPass rest'
          else Regular current :: greedyPass rest
      | [] => [Regular current]
      end
  end.

(** ** Lines of a block *)

(** [s.split("\n")]: the pieces between line feeds; never an empty array. *)
Fixpoint split_nl (s : str) : list str :=
  match s with
  | [] => [[]]
  | c :: rest =>
      if is_nl c then [] :: split_nl rest
      else match split_nl rest with
           | line :: lines => (c :: line) :: lines
           | [] => [[c]]
           end
  end.

(** [if (lines[lines.length - 1] === "") { lines.pop(); }] *)
Definition popLastEmpty (lines : list str) : list str :=
  match nth_error lines (length lines - 1) with
  | Some [] => removelast lines
  | _ => lines
  end.

Definition splitLines (v : str) : list str := popLastEmpty (split_nl v).

(** ** Rows and spans *)

(** A piece of a line's content: plain text, or text inside
    [<span class="word-diff word-added">] or
    [<span class="word-diff word-removed">]. *)
Inductive WordSpan :=
| UnchangedSpan (text : str)
| AddedWord (text : str)
| RemovedWord (text : str).

Definition spanText (s : WordSpan) : str :=
  match s with
  | UnchangedSpan t | AddedWord t | RemovedWord t => t
  end.

(** The class of a [<div class="line ...">]: ["line"], ["line added"],
    ["line removed"], ["line modified"]. *)
Inductive RowClass := ClsUnchanged | ClsAdded | ClsRemoved | ClsModified.

(** One [<div>] appended to [file1Html] or [file2Html]: the placeholder
    [<div class="line empty-line"></div>], or a line with its number and
    content. *)
Inductive Row :=
| Placeholder
| Content (cls : RowClass) (lineNumber : nat) (spans : list WordSpan).

Definition isPlaceholder (r : Row) : bool :=
  match r with Placeholder => true | Content _ _ _ => false end.

Definition isModifiedRow (r : Row) : bool :=
  match r with Content ClsModified _ _ => true | _ => false end.

Definition rowText (r : Row) : str :=
  match r with
  | Placeholder => []
  | Content _ _ spans => concat (map spanText spans)
  end.

(** The texts of the rows that are not placeholders, in order. *)
Definition contentTexts (rows : list Row) : list str :=
  map rowText (filter (fun r => negb (isPlaceholder r)) rows).

(** [lines.join("\n")] *)
Fixpoint joinLines (lines : list str) : str :=
  match lines with
  | [] => []
  | [l] => l
  | l :: more => l ++ nl :: joinLines more
  end.

(** ** HTML text *)

Definition replaceUnit (c : ascii) (by_ : str) (s : str) : str :=
  flat_map (fun x => if Ascii.eqb x c then by_ else [x]) s.

Definition _escapeHtml (text : str) : str :=
  replaceUnit "'"%char (lit "&#039;")
    (replaceUnit dquote (lit "&quot;")
       (replaceUnit ">"%char (lit "&gt;")
          (replaceUnit "<"%char (lit "&lt;")
             (replaceUnit "&"%char (lit "&amp;") text)))).

Definition spanOpen (cls : string) : str :=
  lit "<span class=" ++ dquote :: lit "word-diff " ++ lit cls ++ dquote :: lit ">".

Definition renderSpan (s : WordSpan) : str :=
  match s with
  | UnchangedSpan t => _escapeHtml t
  | AddedWord t => spanOpen "word-added" ++ _escapeHtml t ++ lit "</span>"
  | RemovedWord t => spanOpen "word-removed" ++ _escapeHtml t ++ lit "</span>"
  end.

Definition renderSpans (spans : list WordSpan) : str :=
  concat (map renderSpan spans).

(** [name="v"] *)
Definition attribute (name : string) (v : str) : str :=
  lit name ++ lit "=" ++ dquote :: v ++ [dquote].

(** A line break of a template literal and the indentation that follows. *)
Definition indent (n : nat) : str := nl :: repeat space n.

(** A number inside a template literal. *)
Definition decimal (n : nat) : str :=
  lit (NilEmpty.string_of_uint (Nat.to_uint n)).

(** The template of a numbered line: the [<div>] with its classes and, but
    for unchanged lines, its background, the line number, and the editable
    content. *)
Definition lineDiv (classes : string) (background : option str) (number : nat)
    (content : str) : str :=
  lit "<div " ++ attribute "class" (lit classes)
  ++ match background with
     | Some color =>
         lit " " ++ attribute "style" (lit "background-color: " ++ color ++ lit "20;")
     | None => []
     end
  ++ lit ">" ++ indent 14
  ++ lit "<span " ++ attribute "class" (lit "line-number") ++ lit ">"
  ++ decimal number ++ lit "</span>" ++ indent 14
  ++ lit "<span " ++ attribute "class" (lit "line-content")
  ++ lit " " ++ attribute "contenteditable" (lit "true")
  ++ lit " " ++ attribute "spellcheck" (lit "false")
  ++ lit " " ++ attribute "data-line" (decimal number) ++ lit ">"
  ++ content ++ lit "</span>" ++ indent 12 ++ lit "</div>".

(** [<div class="line empty-line"></div>] *)
Definition emptyLineDiv : str :=
  lit "<div " ++ attribute "class" (lit "line empty-line") ++ lit "></div>".

(** ** The alignment engine *)

Section Engine.

(** The two primitives of the [diff] package. *)
Variable diffLines : str -> str -> list Change.
Variable diffWordsWithSpace : str -> str -> list Change.

(** The three colours read from the configuration. *)
Variable addColor deleteColor modifyColor : str.

(** *** The word-level highlighter (lines 653-695) *)

(** The method as it is written, building the string [result]. *)
Definition _processLineWithWordDiff (line1 line2 : str) (isFile1 isFile2 : bool)
    (_color : str) : str :=
  if isEmpty line1 then _escapeHtml line2
  else if isEmpty line2 then _escapeHtml line1
  else
    let wordDiff := diffWordsWithSpace line1 line2 in
    fold_left
      (fun result part =>
         if added part && isFile2 then
           result ++ spanOpen "word-added" ++ _escapeHtml (value part) ++ lit "</span>"
         else if removed part && isFile1 then
           result ++ spanOpen "word-removed" ++ _escapeHtml (value part) ++ lit "</span>"
         else if negb (added part) && negb (removed part) then
           result ++ _escapeHtml (value part)
         else result)
      wordDiff [].

(** *** The two columns as strings (lines 218-330) *)

(** The four variables the [forEach] updates. *)
Record Html := mkHtml {
  file1Html : str;
  file2Html : str;
  lineNumber1 : nat;
  lineNumber2 : nat
}.

Definition htmlStart : Html := mkHtml [] [] 1 1.

(** One turn of the loop over a modified block, at index [i]. *)
Definition appendModifiedLine (oldLines newLines : list str) (st : Html) (i : nat)
  : Html :=
  let oldLine := if i <? length oldLines then nth i oldLines [] else [] in
  let newLine := if i <? length newLines then nth i newLines [] else [] in
  mkHtml
    (file1Html st ++
       lineDiv "line modified" (Some modifyColor) (lineNumber1 st)
         (_processLineWithWordDiff oldLine newLine true false modifyColor))
    (file2Html st ++
       lineDiv "line modified" (Some modifyColor) (lineNumber2 st)
         (_processLineWithWordDiff oldLine newLine false true modifyColor))
    (S (lineNumber1 st))
    (S (lineNumber2 st)).

Definition appendAddedLine (st : Html) (line : str) : Html :=
  mkHtml
    (file1Html st ++ emptyLineDiv)
    (file2Html st ++
       lineDiv "line added" (Some addColor) (lineNumber2 st)
         (_processLineWithWordDiff [] line false true addColor))
    (lineNumber1 st)
    (S (lineNumber2 st)).

Definition appendRemovedLine (st : Html) (line : str) : Html :=
  mkHtml
    (file1Html st ++
       lineDiv "line removed" (Some deleteColor) (lineNumber1 st)
         (_processLineWithWordDiff line [] true false deleteColor))
    (file2Html st ++ emptyLineDiv)
    (S (lineNumber1 st))
    (lineNumber2 st).

Definition appendUnchangedLine (st : Html) (line : str) : Html :=
  mkHtml
    (file1Html st ++ lineDiv "line" None (lineNumber1 st) (_escapeHtml line))
    (file2Html st ++ lineDiv "line" None (lineNumber2 st) (_escapeHtml line))
    (S (lineNumber1 st))
    (S (lineNumber2 st)).

(** The body of [processedDiff.forEach]. *)
Definition appendPart (st : Html) (part : Processed) : Html :=
  match part with
  | Modified oldValue newValue =>
      let oldLines := splitLines oldValue in
      let newLines := splitLines newValue in
      let maxLines := Nat.max (length oldLines) (length newLines) in
      fold_left (appendModifiedLine oldLines newLines) (seq 0 maxLines) st
  | Regular part =>
      if added part then fold_left appendAddedLine (splitLines (value part)) st
      else if removed part then fold_left appendRemovedLine (splitLines (value part)) st
      else fold_left appendUnchangedLine (splitLines (value part)) st
  end.

(** [_getHtmlForWebview] from the contents of the two files and the two
    options up to the strings [file1Html] and [file2Html], which the method
    then places in the page. *)
Definition _getHtmlForWebview (ignoreWhitespace ignoreCase : bool)
    (file1Content file2Content : str) : Html :=
  let lineDiffResult :=
    diffLines (normalize ignoreWhitespace ignoreCase file1Content)
              (normalize ignoreWhitespace ignoreCase file2Content) in
  let processedDiff := findModifiedBlocks lineDiffResult in
  fold_left appendPart processedDiff htmlStart.

(** *** The two columns as rows *)

(** What one element of the word diff adds to [result], as a span. *)
Definition wordSpan (isFile1 isFile2 : bool) (part : Change) : list WordSpan :=
  if added part && isFile2 then [AddedWord (value part)]
  else if removed part && isFile1 then [RemovedWord (value part)]
  else if negb (added part) && negb (removed part) then [UnchangedSpan (value part)]
  else [].

(** The content of a line as spans: [_processLineWithWordDiff] before
    rendering. *)
Definition lineSpans (line1 line2 : str) (isFile1 isFile2 : bool)
  : list WordSpan :=
  if isEmpty line1 then [UnchangedSpan line2]
  else if isEmpty line2 then [UnchangedSpan line1]
  else flat_map (wordSpan isFile1 isFile2) (diffWordsWithSpace line1 line2).

(** The state of the [forEach] with each column kept as the list of the
    [<div>] elements appended to it. *)
Record Emit := mkEmit {
  leftRows : list Row;
  rightRows : list Row;
  leftNumber : nat;
  rightNumber : nat
}.

Definition emitStart : Emit := mkEmit [] [] 1 1.

Definition emitModifiedLine (oldLines newLines : list str) (st : Emit) (i : nat)
  : Emit :=
  let oldLine := if i <? length oldLines then nth i oldLines [] else [] in
  let newLine := if i <? length newLines then nth i newLines [] else [] in
  mkEmit
    (leftRows st ++
       [Content ClsModified (leftNumber st) (lineSpans oldLine newLine true false)])
    (rightRows st ++
       [Content ClsModified (rightNumber st) (lineSpans oldLine newLine false true)])
    (S (leftNumber st))
    (S (rightNumber st)).

Definition emitAddedLine (st : Emit) (line : str) : Emit :=
  mkEmit
    (leftRows st ++ [Placeholder])
    (rightRows st ++
       [Content ClsAdded (rightNumber st) (lineSpans [] line false true)])
    (leftNumber st)
    (S (rightNumber st)).

Definition emitRemovedLine (st : Emit) (line : str) : Emit :=
  mkEmit
    (leftRows st ++
       [Content ClsRemoved (leftNumber st) (lineSpans line [] true false)])
    (rightRows st ++ [Placeholder])
    (S (leftNumber st))
    (rightNumber st).

Definition emitUnchangedLine (st : Emit) (line : str) : Emit :=
  mkEmit
    (leftRows st ++ [Content ClsUnchanged (leftNumber st) [UnchangedSpan line]])
    (rightRows st ++ [Content ClsUnchanged (rightNumber st) [UnchangedSpan line]])
    (S (leftNumber st))
    (S (rightNumber st)).

Definition emitPart (st : Emit) (part : Processed) : Emit :=
  match part with
  | Modified oldValue newValue =>
      let oldLines := splitLines oldValue in
      let newLines := splitLines newValue in
      let maxLines := Nat.max (length oldLines) (length newLines) in
      fold_left (emitModifiedLine oldLines newLines) (seq 0 maxLines) st
  | Regular part =>
      if added part then fold_left emitAddedLine (splitLines (value part)) st
      else if removed part then fold_left emitRemovedLine (splitLines (value part)) st
      else fold_left emitUnchangedLine (splitLines (value part)) st
  end.

(** The rows of lines 181-330 on a given edit script. *)
Definition alignRows (lineDiffResult : list Change) : Emit :=
  fold_left emitPart (findModifiedBlocks lineDiffResult) emitStart.

(** The rows of the two columns, from the contents of the two files and
    the two options. *)
Definition compareRows (ignoreWhitespace ignoreCase : bool)
    (file1Content file2Content : str) : Emit :=
  alignRows
    (diffLines (normalize ignoreWhitespace ignoreCase file1Content)
               (normalize ignoreWhitespace ignoreCase file2Content)).

(** The strings the rows stand for. *)
Definition rowClassName (cls : RowClass) : string :=
  match cls with
  | ClsUnchanged => "line"
  | ClsAdded => "line added"
  | ClsRemoved => "line removed"
  | ClsModified => "line modified"
  end.

Definition rowBackground (cls : RowClass) : option str :=
  match cls with
  | ClsUnchanged => None
  | ClsAdded => Some addColor
  | ClsRemoved => Some deleteColor
  | ClsModified => Some modifyColor
  end.

Definition renderRow (r : Row) : str :=
  match r with
  | Placeholder => emptyLineDiv
  | Content cls number spans =>
      lineDiv (rowClassName cls) (rowBackground cls) number (renderSpans spans)
  end.

Definition renderRows (rows : list Row) : str := concat (map renderRow rows).

Definition renderEmit (st : Emit) : Html :=
  mkHtml (renderRows (leftRows st)) (renderRows (rightRows st))
    (leftNumber st) (rightNumber st).

End Engine.

(** ** A concrete primitive *)

Fixpoint str_eqb (a b : str) : bool :=
  match a, b with
  | [], [] => true
  | x :: a', y :: b' => Ascii.eqb x y && str_eqb a' b'
  | _, _ => false
  end.

Definition nonEmptyChange (c : Change) : bool := negb (isEmpty (value c)).

(** A primitive that meets the contract without looking inside the texts:
    equal texts are one unchanged element, different texts one removed and
    one added element, and no element is empty.  It stands for [diffLines]
    and [diffWordsWithSpace] where a statement is evaluated on concrete
    texts; on the texts used below the two functions of the package return
    the same elements. *)
Definition wholeTextDiff (a b : str) : list Change :=
  filter nonEmptyChange
    (if str_eqb a b then [Unchanged a] else [Removed a; Added b]).

(** ** Shapes of scripts used in the statements *)

Definition endsWithNl (s : str) : bool :=
  match rev s with
  | c :: _ => is_nl c
  | [] => false
  end.

(** A text without its final line feed, when it has one. *)
Definition chomp (s : str) : str :=
  if endsWithNl s then removelast s else s.

(** The elements of one column of a line diff are made of whole lines: each
    of them but the last ends with a line feed. *)
Fixpoint wholeLines (values : list str) : bool :=
  match values with
  | [] => true
  | v :: more =>
      match more with
      | [] => true
      | _ :: _ => endsWithNl v && wholeLines more
      end
  end.

Definition oldValues (script : list Change) : list str :=
  map value (filter (fun c => negb (added c)) script).

Definition newValues (script : list Change) : list str :=
  map value (filter (fun c => negb (removed c)) script).

(** A modified block pairs its lines one to one, an empty line only with an
    empty line. *)
Definition balancedLines (oldLines newLines : list str) : bool :=
  (length oldLines =? length newLines)
  && forallb (fun i => Bool.eqb (isEmpty (nth i oldLines []))
                                (isEmpty (nth i newLines [])))
       (seq 0 (length oldLines)).

Definition balancedPart (part : Processed) : bool :=
  match part with
  | Modified oldValue newValue =>
      balancedLines (splitLines oldValue) (splitLines newValue)
  | Regular _ => true
  end.

(** The contract of the word diff, for every pair of lines. *)
Definition wordContract (diffWords : str -> str -> list Change) : Prop :=
  forall a b,
    forallb exclusiveFlags (diffWords a b) = true
    /\ oldText (diffWords a b) = a
    /\ newText (diffWords a b) = b.

(** The four shapes a pair of rows at one index can take. *)
Definition alignedPair (l r : Row) : bool :=
  match l, r with
  | Content ClsModified _ _, Content ClsModified _ _ => true
  | Content ClsUnchanged _ _, Content ClsUnchanged _ _ => true
  | Content ClsRemoved _ _, Placeholder => true
  | Placeholder, Content ClsAdded _ _ => true
  | _, _ => false
  end.

(** The lines of a list, each followed by a line feed. *)
Definition unlines (lines : list str) : str :=
  flat_map (fun l => l ++ [nl]) lines.

(** A text with a final line feed added when it is not empty and has none. *)
Definition terminate (s : str) : str :=
  if isEmpty s || endsWithNl s then s else s ++ [nl].

(** The lines an element of [processedDiff] contributes to each document. *)
Definition leftLines (part : Processed) : list str :=
  match part with
  | Modified oldValue _ => splitLines oldValue
  | Regular c => if added c then [] else splitLines (value c)
  end.

Definition rightLines (part : Processed) : list str :=
  match part with
  | Modified _ newValue => splitLines newValue
  | Regular c =>
      if added c then splitLines (value c)
      else if removed c then [] else splitLines (value c)
  end.

(** The two texts of the examples. *)
Definition text_a_b : str := lit "a" ++ nl :: lit "b".
Definition text_a_nl : str := lit "a" ++ [nl].
Definition text_x_y_nl : str := lit "x" ++ nl :: lit "y" ++ [nl].
Definition text_z_nl : str := lit "z" ++ [nl].

(** * The rest of the code *)

(** ** Notions used in further properties of the engine *)

(** What [_escapeHtml] makes of one code unit. *)
Definition escapeUnit (c : ascii) : str :=
  if Ascii.eqb c "&" then lit "&amp;"
  else if Ascii.eqb c "<" then lit "&lt;"
  else if Ascii.eqb c ">" then lit "&gt;"
  else if Ascii.eqb c dquote then lit "&quot;"
  else if Ascii.eqb c "'" then lit "&#039;"
  else [c].

(** The shape of [escapeUnit c]: its first unit, and the second one when
    the first is an ampersand, tell [c]. *)
Definition unitKey (s : str) : option ascii :=
  match s with
  | [] => None
  | x :: rest =>
      if Ascii.eqb x "&"
      then match rest with
           | y :: _ =>
               Some (if Ascii.eqb y "a" then "&"
                     else if Ascii.eqb y "l" then "<"
                     else if Ascii.eqb y "g" then ">"
                     else if Ascii.eqb y "q" then dquote
                     else "'")%char
           | [] => None
           end
      else Some x
  end.

(** The code units that open or close markup or an attribute value. *)
Definition isMarkupUnit (c : ascii) : bool :=
  Ascii.eqb c "<" || Ascii.eqb c ">" || Ascii.eqb c dquote || Ascii.eqb c "'".

(** The line numbers shown in a column, in order. *)
Definition rowNumbers (rows : list Row) : list nat :=
  flat_map (fun r => match r with
                     | Placeholder => []
                     | Content _ number _ => [number]
                     end) rows.

(** An element of the edit script that is neither added nor removed. *)
Definition plainChange (c : Change) : bool := negb (added c) && negb (removed c).

(** The two elements a processed element was made from. *)
Definition unmerge (part : Processed) : list Change :=
  match part with
  | Modified oldValue newValue => [Removed oldValue; Added newValue]
  | Regular c => [c]
  end.

(** No removed element that was kept as it is stands directly before an
    added element that was kept as it is. *)
Fixpoint noUnmergedPair (parts : list Processed) : bool :=
  match parts with
  | [] => true
  | part :: more =>
      match part, more with
      | Regular c, Regular d :: _ => negb (removed c && added d)
      | _, _ => true
      end
      && noUnmergedPair more
  end.

Definition modifiedCount (parts : list Processed) : nat :=
  length (filter (fun part => match part with
                              | Modified _ _ => true
                              | Regular _ => false
                              end) parts).

(** How the rows at one index face each other. *)
Definition facing (l r : Row) : Prop :=
  match l, r with
  | Content ClsUnchanged _ spans, Content ClsUnchanged _ spans' =>
      spans = spans' /\ exists line, spans = [UnchangedSpan line]
  | Content ClsModified _ _, Content ClsModified _ _ => True
  | Content ClsRemoved _ spans, Placeholder => exists line, spans = [UnchangedSpan line]
  | Placeholder, Content ClsAdded _ spans => exists line, spans = [UnchangedSpan line]
  | _, _ => False
  end.

(** ** The script of the page (lines 488-620) *)

(** [document.querySelectorAll('.added, .removed, .modified')]: the rows of
    class added, removed or modified, those of the left column first. *)
Definition isDiffRow (r : Row) : bool :=
  match r with
  | Content ClsAdded _ _ | Content ClsRemoved _ _ | Content ClsModified _ _ => true
  | _ => false
  end.

Definition diffElements (st : Emit) : list Row :=
  filter isDiffRow (leftRows st ++ rightRows st).

(** *** Navigation between diffs (lines 503-531) *)

(** [currentDiffIndex], and the indices passed to [scrollIntoView] so far. *)
Record Nav := mkNav { currentDiffIndex : Z; scrolledTo : list Z }.

(** [scrollToDiff(index)], with [count] for [diffElements.length]. *)
Definition scrollToDiff (count : nat) (st : Nav) (index : Z) : Nav :=
  if (count =? 0)%nat then st
  else
    let index := if (index <? 0)%Z then (Z.of_nat count - 1)%Z else index in
    let index := if (index >=? Z.of_nat count)%Z then 0%Z else index in
    mkNav index (scrolledTo st ++ [index]).

Inductive NavButton := PrevDiff | NextDiff.

Definition navClick (count : nat) (st : Nav) (button : NavButton) : Nav :=
  match button with
  | PrevDiff => scrollToDiff count st (currentDiffIndex st - 1)%Z
  | NextDiff => scrollToDiff count st (currentDiffIndex st + 1)%Z
  end.

(** [let currentDiffIndex = -1] and the initial [scrollToDiff(0)]. *)
Definition navStart (count : nat) : Nav :=
  if (0 <? count)%nat then scrollToDiff count (mkNav (-1) []) 0%Z
  else mkNav (-1) [].

Definition navRun (count : nat) (clicks : list NavButton) : Nav :=
  fold_left (navClick count) clicks (navStart count).

(** *** Editing and saving (lines 533-619) *)

(** The second argument of [updateFileStatus]: ['unsaved'], ['saving'], or
    anything else (the code passes ['saved']). *)
Inductive FileStatus := StatusUnsaved | StatusSaving | StatusSaved.

(** The status text of a column and the two classes of its view that the
    script adds and removes. *)
Record StatusView := mkStatusView {
  statusText : string;
  unsavedChanges : bool;
  saving : bool
}.

Definition statusView (status : FileStatus) : StatusView :=
  match status with
  | StatusUnsaved => mkStatusView "(unsaved changes)" true false
  | StatusSaving => mkStatusView "(saving...)" false true
  | StatusSaved => mkStatusView "" false false
  end.

(** The message [{command: 'save', file, content}]. *)
Record SaveMessage := mkSave { saveFile : nat; saveContent : str }.

(** The variables of the script, the text of the [.line-content] elements
    of each column, and the messages posted so far. *)
Record Page := mkPage {
  file1Changed : bool;
  file2Changed : bool;
  file1Status : StatusView;
  file2Status : StatusView;
  file1Lines : list str;
  file2Lines : list str;
  posted : list SaveMessage
}.

(** The page as loaded: nothing changed, no status shown. *)
Definition pageStart (lines1 lines2 : list str) : Page :=
  mkPage false false (statusView StatusSaved) (statusView StatusSaved)
    lines1 lines2 [].

(** [updateFileStatus(fileNum, status)]; the code calls it with 1 and 2. *)
Definition updateFileStatus (fileNum : nat) (status : FileStatus) (p : Page) : Page :=
  if (fileNum =? 1)%nat
  then mkPage (file1Changed p) (file2Changed p) (statusView status) (file2Status p)
         (file1Lines p) (file2Lines p) (posted p)
  else mkPage (file1Changed p) (file2Changed p) (file1Status p) (statusView status)
         (file1Lines p) (file2Lines p) (posted p).

Definition setFile1Changed (b : bool) (p : Page) : Page :=
  mkPage b (file2Changed p) (file1Status p) (file2Status p)
    (file1Lines p) (file2Lines p) (posted p).

Definition setFile2Changed (b : bool) (p : Page) : Page :=
  mkPage (file1Changed p) b (file1Status p) (file2Status p)
    (file1Lines p) (file2Lines p) (posted p).

(** [handleContentChange(event, fileNum)], with
    [event.target.matches('.line-content')] for [matchesLineContent]. *)
Definition handleContentChange (matchesLineContent : bool) (fileNum : nat)
    (p : Page) : Page :=
  if negb matchesLineContent then p
  else if (fileNum =? 1)%nat
  then updateFileStatus 1 StatusUnsaved (setFile1Changed true p)
  else updateFileStatus 2 StatusUnsaved (setFile2Changed true p).

(** [getFileContent(fileNum)] *)
Definition getFileContent (fileNum : nat) (p : Page) : str :=
  joinLines (if (fileNum =? 1)%nat then file1Lines p
             else if (fileNum =? 2)%nat then file2Lines p
             else []).

Definition postMessage (m : SaveMessage) (p : Page) : Page :=
  mkPage (file1Changed p) (file2Changed p) (file1Status p) (file2Status p)
    (file1Lines p) (file2Lines p) (posted p ++ [m]).

(** The browser changes the text of a column. *)
Definition setLines (fileNum : nat) (lines : list str) (p : Page) : Page :=
  if (fileNum =? 1)%nat
  then mkPage (file1Changed p) (file2Changed p) (file1Status p) (file2Status p)
         lines (file2Lines p) (posted p)
  else mkPage (file1Changed p) (file2Changed p) (file1Status p) (file2Status p)
         (file1Lines p) lines (posted p).

Inductive PageEvent :=
| Input (fileNum : nat) (matchesLineContent : bool) (lines : list str)
| SaveLeftClick
| SaveRightClick
| SavedMessage (file : nat)
| OtherMessage.

(** The listeners of the script.  An input event of the column [fileNum] (1
    or 2) arrives after the browser has changed the text of that column to
    [lines]. *)
Definition pageStep (p : Page) (e : PageEvent) : Page :=
  match e with
  | Input fileNum matchesLineContent lines =>
      handleContentChange matchesLineContent fileNum (setLines fileNum lines p)
  | SaveLeftClick =>
      if negb (file1Changed p) then p
      else
        let p' := updateFileStatus 1 StatusSaving p in
        postMessage (mkSave 1 (getFileContent 1 p')) p'
  | SaveRightClick =>
      if negb (file2Changed p) then p
      else
        let p' := updateFileStatus 2 StatusSaving p in
        postMessage (mkSave 2 (getFileContent 2 p')) p'
  | SavedMessage file =>
      if (file =? 1)%nat
      then updateFileStatus 1 StatusSaved (setFile1Changed false p)
      else updateFileStatus 2 StatusSaved (setFile2Changed false p)
  | OtherMessage => p
  end.

Definition pageRun (p : Page) (events : list PageEvent) : Page :=
  fold_left pageStep events p.

(** An input event of the left column, or of the right column, on a
    [.line-content] element is among the events. *)
Definition editedLeft (events : list PageEvent) : bool :=
  existsb (fun e => match e with
                    | Input fileNum true _ => (fileNum =? 1)%nat
                    | _ => false
                    end) events.

Definition editedRight (events : list PageEvent) : bool :=
  existsb (fun e => match e with
                    | Input fileNum true _ => negb (fileNum =? 1)%nat
                    | _ => false
                    end) events.

(** A column shows a status exactly when its flag is set, and the text and
    the classes of the status agree. *)
Definition statusAgrees (changed : bool) (view : StatusView) : Prop :=
  (changed = false /\ view = mkStatusView "" false false)
  \/ (changed = true
      /\ (view = mkStatusView "(unsaved changes)" true false
          \/ view = mkStatusView "(saving...)" false true)).

(** ** The message handler of the panel (lines 89-119) and the command of
    the extension *)

Section Extension.

(** [vscode.Uri], its [fsPath], and [vscode.workspace.asRelativePath]. *)
Variable Uri : Type.
Variable fsPath : Uri -> str.
Variable asRelativePath : Uri -> str.

Inductive WebviewMessage :=
| AlertMessage (text : str)
| SaveRequest (file : nat) (content : str)
| UnknownMessage.

Inductive Effect :=
| ShowErrorMessage (text : str)
| WriteFile (fileUri : Uri) (content : str)
| PostSaved (file : nat)
| CreateOrShow (file1Uri file2Uri : Uri).

(** The listener given to [onDidReceiveMessage], as the calls it makes;
    [writeError] is the message of the error [writeFile] throws, if it
    throws. *)
Definition onDidReceiveMessage (_file1Uri _file2Uri : Uri)
    (writeError : option str) (message : WebviewMessage) : list Effect :=
  match message with
  | AlertMessage text => [ShowErrorMessage text]
  | SaveRequest file content =>
      let fileUri := if (file =? 1)%nat then _file1Uri else _file2Uri in
      match writeError with
      | None => [WriteFile fileUri content; PostSaved file]
      | Some error =>
          [WriteFile fileUri content;
           ShowErrorMessage (lit "Failed to save file: " ++ error)]
      end
  | UnknownMessage => []
  end.

(** The messages the page receives for the effects of the handler. *)
Definition replies (effects : list Effect) : list PageEvent :=
  flat_map (fun effect => match effect with
                          | PostSaved file => [SavedMessage file]
                          | _ => []
                          end) effects.

(** A click on a save button, the handling of the messages it posts, and
    the delivery of the replies to the page. *)
Definition saveRoundTrip (_file1Uri _file2Uri : Uri) (writeError : option str)
    (p : Page) (click : PageEvent) : Page * list Effect :=
  let p' := pageStep p click in
  let requests := skipn (length (posted p)) (posted p') in
  let effects :=
    flat_map (fun m => onDidReceiveMessage _file1Uri _file2Uri writeError
                         (SaveRequest (saveFile m) (saveContent m)))
      requests in
  (pageRun p' (replies effects), effects).

(** *** The command [text-comparator.compare] *)

Record TextDocument := mkDocument { isUntitled : bool; uri : Uri }.

Record QuickPickItem := mkItem {
  label : str;
  description : option str;
  isSeparator : bool;
  itemUri : option Uri;
  picked : bool
}.

Definition samePath (a b : Uri) : bool := str_eqb (fsPath a) (fsPath b).

(** The documents that are open, saved under a name, and not the file the
    command was invoked on. *)
Definition openEditors (fileUri : Uri) (textDocuments : list TextDocument)
  : list Uri :=
  map uri
    (filter (fun doc => negb (isUntitled doc) && negb (samePath (uri doc) fileUri))
       textDocuments).

Definition recentSection (fileUri : Uri) (textDocuments : list TextDocument)
  : list QuickPickItem :=
  map (fun editor =>
         mkItem (lit "$(history) " ++ asRelativePath editor)
           (Some (lit "Recently Used")) false (Some editor) true)
    (openEditors fileUri textDocuments).

Definition workspaceSection (fileUri : Uri) (textDocuments : list TextDocument)
    (files : list Uri) : list QuickPickItem :=
  map (fun u => mkItem (asRelativePath u) (Some (lit "Workspace File")) false
                  (Some u) false)
    (filter (fun u =>
               negb (samePath u fileUri)
               && negb (existsb (fun editor => samePath editor u)
                          (openEditors fileUri textDocuments)))
       files).

Definition separator (text : string) : QuickPickItem :=
  mkItem (lit text) None true None false.

Definition fileItems (fileUri : Uri) (textDocuments : list TextDocument)
    (files : list Uri) : list QuickPickItem :=
  separator "Recently Used Files"
  :: recentSection fileUri textDocuments
  ++ separator "Workspace Files"
  :: workspaceSection fileUri textDocuments files
  ++ [separator "Other Options";
      mkItem (lit "$(file-directory) Open another file...")
        (Some (lit "Browse file system")) false None false].

(** The handler of the command.  [fileUri] is absent when the command comes
    from the command palette; [twoFiles] and [openDialog] are the answers of
    the two file dialogs, [showQuickPick] the answer of the quick pick. *)
Definition compareCommand (fileUri : option Uri) (twoFiles : option (list Uri))
    (textDocuments : list TextDocument) (files : list Uri)
    (showQuickPick : list QuickPickItem -> option QuickPickItem)
    (openDialog : option (list Uri)) : list Effect :=
  match fileUri with
  | None =>
      match twoFiles with
      | Some [first; second] => [CreateOrShow first second]
      | _ => [ShowErrorMessage (lit "Please select exactly two files to compare.")]
      end
  | Some fileUri =>
      let selected := showQuickPick (fileItems fileUri textDocuments files) in
      let secondFileUri :=
        match selected with
        | Some item =>
            match itemUri item with
            | Some u => Some u
            | None =>
                match openDialog with
                | Some [u] => Some u
                | _ => None
                end
            end
        | None => None
        end in
      match secondFileUri with
      | Some second => [CreateOrShow fileUri second]
      | None => []
      end
  end.

End Extension.

(** * Properties *)

(** ** Code units *)

Ltac each_unit c :=
  destruct c as [[|] [|] [|] [|] [|] [|] [|] [|]]; vm_compute; reflexivity.

Lemma toLowerUnit_idem (c : ascii) : toLowerUnit (toLowerUnit c) = toLowerUnit c.
Proof. each_unit c. Qed.

Lemma is_space_toLowerUnit (c : ascii) : is_space (toLowerUnit c) = is_space c.
Proof. each_unit c. Qed.

Lemma toLowerCase_idem (s : str) : toLowerCase (toLowerCase s) = toLowerCase s.
Proof.
  unfold toLowerCase. rewrite map_map.
  apply map_ext. exact toLowerUnit_idem.
Qed.

(** ** Whitespace runs *)

Lemma replaceSpaceRuns_toLowerCase (b : bool) (s : str) :
  replaceSpaceRuns b (toLowerCase s) = toLowerCase (replaceSpaceRuns b s).
Proof.
  revert b. induction s as [|c s IH]; intro b; simpl; [reflexivity|].
  rewrite is_space_toLowerUnit.
  destruct (is_space c); [destruct b|]; simpl; rewrite IH; reflexivity.
Qed.

Lemma runs_concat (s : str) : concat (map snd (runs s)) = s.
Proof.
  induction s as [|c s IH]; simpl; [reflexivity|].
  destruct (runs s) as [|[b w] more]; simpl in *.
  - now rewrite <- IH.
  - destruct (Bool.eqb b (is_space c)); simpl; now rewrite <- IH.
Qed.

Lemma runs_maximal (s : str) : maximalRuns (runs s) = true.
Proof.
  induction s as [|c s IH]; simpl; [reflexivity|].
  destruct (runs s) as [|[b w] more]; simpl in *.
  - now rewrite eqb_reflx.
  - destruct (Bool.eqb b (is_space c)) eqn:E; simpl.
    + apply eqb_prop in E. subst b. rewrite eqb_reflx.
      simpl. destruct (isEmpty w); [discriminate|exact IH].
    + rewrite eqb_reflx. simpl.
      assert (Bool.eqb (is_space c) b = false) as ->
        by (destruct b, (is_space c); simpl in *; congruence).
      simpl. exact IH.
Qed.

Lemma replaceSpaceRuns_collapse (s : str) :
  replaceSpaceRuns false s = collapseRuns s
  /\ replaceSpaceRuns true s =
       match runs s with
       | (true, _) :: more => concat (map collapseRun more)
       | _ => collapseRuns s
       end.
Proof.
  unfold collapseRuns.
  induction s as [|c s [IHf IHt]]; simpl; [split; reflexivity|].
  rewrite IHf, IHt. clear IHf IHt.
  destruct (runs s) as [|[b w] more]; simpl.
  - destruct (is_space c); split; reflexivity.
  - destruct b, (is_space c); simpl; split; reflexivity.
Qed.

Lemma normalize_specNormalize (ignoreWhitespace ignoreCase : bool) (s : str) :
  normalize ignoreWhitespace ignoreCase s = specNormalize ignoreWhitespace ignoreCase s.
Proof.
  unfold normalize, specNormalize, replaceWhitespace.
  destruct ignoreWhitespace, ignoreCase;
    try rewrite (proj1 (replaceSpaceRuns_collapse s)); reflexivity.
Qed.

(** C7.  Normalization is the composition of two steps in a fixed order:
    under [ignoreWhitespace] every maximal run of whitespace (line feeds
    included) becomes one space, then under [ignoreCase] the result is
    lower-cased; each option acts on its own.  [runs] is a decomposition of
    the text into its maximal runs. *)
Theorem normalize_whitespace_then_case :
  forall (ignoreWhitespace ignoreCase : bool) (s : str),
    normalize ignoreWhitespace ignoreCase s
    = (if ignoreCase then toLowerCase else fun t => t)
        ((if ignoreWhitespace then collapseRuns else fun t => t) s)
    /\ concat (map snd (runs s)) = s
    /\ maximalRuns (runs s) = true
    /\ is_space nl = true.
Proof.
  intros iw ic s. split; [|split; [apply runs_concat|split; [apply runs_maximal|reflexivity]]].
  rewrite normalize_specNormalize. unfold specNormalize.
  destruct iw, ic; reflexivity.
Qed.

(** ** Preprocessing over any code units *)

(** [normalize] is [normalizeOver] at the code units below 256. *)
Lemma replaceSpaceRuns_replaceSpaceRunsOver (b : bool) (s : str) :
  replaceSpaceRuns b s = replaceSpaceRunsOver is_space space b s.
Proof.
  revert b. induction s as [|c s IH]; intro b; [reflexivity|].
  cbn [replaceSpaceRuns replaceSpaceRunsOver]. now rewrite !IH.
Qed.

Lemma normalize_normalizeOver (ignoreWhitespace ignoreCase : bool) (s : str) :
  normalize ignoreWhitespace ignoreCase s
  = normalizeOver is_space space toLowerCase ignoreWhitespace ignoreCase s.
Proof.
  unfold normalize, normalizeOver, replaceWhitespace, replaceWhitespaceOver.
  now rewrite replaceSpaceRuns_replaceSpaceRunsOver.
Qed.

Lemma is_space_jsWhitespace (c : ascii) : jsWhitespace (N_of_ascii c) = is_space c.
Proof. each_unit c. Qed.

Section AnyUnitsFacts.

Variable codeUnit : Type.
Variable isSpace : codeUnit -> bool.
Variable spaceUnit : codeUnit.
Hypothesis isSpace_spaceUnit : isSpace spaceUnit = true.

Lemma replaceSpaceRunsOver_fixed (s : list codeUnit) :
  replaceSpaceRunsOver isSpace spaceUnit false
    (replaceSpaceRunsOver isSpace spaceUnit false s)
  = replaceSpaceRunsOver isSpace spaceUnit false s
  /\ replaceSpaceRunsOver isSpace spaceUnit true
       (replaceSpaceRunsOver isSpace spaceUnit true s)
     = replaceSpaceRunsOver isSpace spaceUnit true s.
Proof.
  induction s as [|c s [IHf IHt]]; [split; reflexivity|].
  cbn [replaceSpaceRunsOver]. destruct (isSpace c) eqn:Hc.
  - split; [|exact IHt].
    cbn [replaceSpaceRunsOver]. now rewrite isSpace_spaceUnit, IHt.
  - cbn [replaceSpaceRunsOver]. rewrite Hc, IHf. split; reflexivity.
Qed.

Lemma replaceSpaceRunsOver_length (b : bool) (s : list codeUnit) :
  length (replaceSpaceRunsOver isSpace spaceUnit b s) <= length s.
Proof.
  revert b. induction s as [|c s IH]; intro b; [reflexivity|].
  cbn [replaceSpaceRunsOver]. destruct (isSpace c); [destruct b|]; cbn [length].
  - specialize (IH true). lia.
  - specialize (IH true). lia.
  - specialize (IH false). lia.
Qed.

(** A text that collapsing leaves as it is has single spaces only. *)
Lemma replaceSpaceRunsOver_fixed_single (s : list codeUnit) :
  (replaceSpaceRunsOver isSpace spaceUnit false s = s ->
   singleSpacesOver isSpace spaceUnit s)
  /\ (replaceSpaceRunsOver isSpace spaceUnit true s = s ->
      singleSpacesOver isSpace spaceUnit s
      /\ match s with
         | d :: _ => isSpace d = false
         | [] => True
         end).
Proof.
  induction s as [|c s [IHf IHt]]; [cbn; tauto|].
  cbn [replaceSpaceRunsOver singleSpacesOver]. destruct (isSpace c) eqn:Hc.
  - split.
    + intro E. injection E as Ec Es. destruct (IHt Es) as [S H].
      split; [|exact S]. intros _. split; [now symmetry|exact H].
    + intro E. exfalso.
      pose proof (replaceSpaceRunsOver_length true s) as L.
      rewrite E in L. cbn [length] in L. lia.
  - split.
    + intro E. injection E as Es. split; [discriminate|exact (IHf Es)].
    + intro E. injection E as Es. split; [|reflexivity].
      split; [discriminate|exact (IHf Es)].
Qed.

Lemma singleSpacesOver_In (s : list codeUnit) :
  singleSpacesOver isSpace spaceUnit s ->
  forall u, In u s -> isSpace u = true -> u = spaceUnit.
Proof.
  induction s as [|c s IH]; [intros _ u []|].
  cbn [singleSpacesOver]. intros [Hc Hs] u [<-|Hu] Hsp.
  - exact (proj1 (Hc Hsp)).
  - exact (IH Hs u Hu Hsp).
Qed.

(** Units outside the class [\s] pass the scanner as they are and end the
    match in progress. *)
Lemma replaceSpaceRunsOver_word (word rest : list codeUnit) (b : bool) :
  word <> [] ->
  forallb (fun u => negb (isSpace u)) word = true ->
  replaceSpaceRunsOver isSpace spaceUnit b (word ++ rest)
  = word ++ replaceSpaceRunsOver isSpace spaceUnit false rest.
Proof.
  revert b. induction word as [|u word IH]; intros b Hne Hw; [congruence|].
  cbn [forallb] in Hw. apply Bool.andb_true_iff in Hw as [Hu Hw].
  apply Bool.negb_true_iff in Hu.
  cbn [app replaceSpaceRunsOver]. rewrite Hu. f_equal.
  destruct word as [|v word]; [reflexivity|].
  apply IH; [discriminate|exact Hw].
Qed.

(** A lower-casing that rewrites unit by unit, keeps the units of the class
    [\s] and writes none, commutes with the scanner. *)
Lemma replaceSpaceRunsOver_flat_map (f : codeUnit -> list codeUnit) :
  (forall u, isSpace u = true -> f u = [u]) ->
  (forall u, isSpace u = false ->
             f u <> [] /\ forallb (fun v => negb (isSpace v)) (f u) = true) ->
  forall (b : bool) (s : list codeUnit),
    replaceSpaceRunsOver isSpace spaceUnit b (flat_map f s)
    = flat_map f (replaceSpaceRunsOver isSpace spaceUnit b s).
Proof.
  intros Hs Hw b s. revert b.
  induction s as [|c s IH]; intro b; [reflexivity|].
  cbn [flat_map replaceSpaceRunsOver]. destruct (isSpace c) eqn:Hc.
  - rewrite (Hs c Hc). cbn [app replaceSpaceRunsOver]. rewrite Hc.
    destruct b; [apply IH|].
    cbn [flat_map]. rewrite (Hs spaceUnit isSpace_spaceUnit).
    cbn [app]. now rewrite IH.
  - destruct (Hw c Hc) as [Hne Hall].
    rewrite (replaceSpaceRunsOver_word _ _ b Hne Hall).
    cbn [flat_map]. now rewrite IH.
Qed.

Variable lowerCase : list codeUnit -> list codeUnit.

Hypothesis lowerCase_collapsed :
  forall t, replaceWhitespaceOver isSpace spaceUnit t = t ->
            replaceWhitespaceOver isSpace spaceUnit (lowerCase t) = lowerCase t.

Lemma normalizeOver_collapsed (ignoreCase : bool) (s : list codeUnit) :
  replaceWhitespaceOver isSpace spaceUnit
    (normalizeOver isSpace spaceUnit lowerCase true ignoreCase s)
  = normalizeOver isSpace spaceUnit lowerCase true ignoreCase s.
Proof.
  unfold normalizeOver.
  assert (C : replaceWhitespaceOver isSpace spaceUnit
                (replaceWhitespaceOver isSpace spaceUnit s)
              = replaceWhitespaceOver isSpace spaceUnit s)
    by apply replaceSpaceRunsOver_fixed.
  destruct ignoreCase; [apply lowerCase_collapsed|]; exact C.
Qed.

Lemma normalizeOver_singleSpaces (ignoreCase : bool) (s : list codeUnit) :
  singleSpacesOver isSpace spaceUnit
    (normalizeOver isSpace spaceUnit lowerCase true ignoreCase s).
Proof.
  apply (proj1 (replaceSpaceRunsOver_fixed_single _)).
  exact (normalizeOver_collapsed ignoreCase s).
Qed.

Hypothesis lowerCase_idem : forall t, lowerCase (lowerCase t) = lowerCase t.

Lemma normalizeOver_fixed (ignoreWhitespace ignoreCase : bool) (s : list codeUnit) :
  normalizeOver isSpace spaceUnit lowerCase ignoreWhitespace ignoreCase
    (normalizeOver isSpace spaceUnit lowerCase ignoreWhitespace ignoreCase s)
  = normalizeOver isSpace spaceUnit lowerCase ignoreWhitespace ignoreCase s.
Proof.
  destruct ignoreWhitespace.
  - pose proof (normalizeOver_collapsed ignoreCase s) as C.
    unfold normalizeOver in *. destruct ignoreCase.
    + now rewrite C, lowerCase_idem.
    + exact C.
  - unfold normalizeOver. destruct ignoreCase; [apply lowerCase_idem|reflexivity].
Qed.

End AnyUnitsFacts.

(** *** A lower-casing that changes lengths *)

Lemma lowerUnits_cases (u : N) :
  (65 <= u <= 90 /\ lowerUnits u = [u + 32])%N
  \/ (u = 304 /\ lowerUnits u = [105; 775])%N
  \/ ((u < 65 \/ 90 < u) /\ u <> 304 /\ lowerUnits u = [u])%N.
Proof.
  unfold lowerUnits.
  destruct (N.leb_spec 65 u), (N.leb_spec u 90), (N.eqb_spec u 304);
    cbn [andb]; try lia; auto 10.
  all: right; right; repeat split; auto; lia.
Qed.

Lemma lowerUnits_kept (u : N) :
  (u < 65 \/ 90 < u)%N -> u <> 304%N -> lowerUnits u = [u].
Proof.
  intros H N. destruct (lowerUnits_cases u) as [[R _]|[[E _]|(_ & _ & K)]];
    [lia|congruence|exact K].
Qed.

Lemma jsWhitespace_true (u : N) :
  jsWhitespace u = true ->
  (In u [9; 10; 11; 12; 13; 32; 160; 5760; 8232; 8233; 8239; 8287; 12288; 65279]
   \/ 8192 <= u <= 8202)%N.
Proof.
  unfold jsWhitespace. intros [H|H]%Bool.orb_true_iff.
  - left. apply existsb_exists in H as (k & Hk & E).
    apply N.eqb_eq in E. now subst k.
  - right. apply Bool.andb_true_iff in H as [A B].
    apply N.leb_le in A, B. lia.
Qed.

Lemma jsWhitespace_letter (u : N) :
  (97 <= u <= 122 \/ u = 105 \/ u = 775)%N -> jsWhitespace u = false.
Proof.
  intro H. destruct (jsWhitespace u) eqn:E; [|reflexivity].
  apply jsWhitespace_true in E. cbn [In] in E. lia.
Qed.

Lemma lowerUnits_whitespace (u : N) :
  jsWhitespace u = true -> lowerUnits u = [u].
Proof.
  intro H. apply jsWhitespace_true in H. cbn [In] in H.
  apply lowerUnits_kept; lia.
Qed.

Lemma lowerUnits_word (u : N) :
  jsWhitespace u = false ->
  lowerUnits u <> [] /\ forallb (fun v => negb (jsWhitespace v)) (lowerUnits u) = true.
Proof.
  intro H. destruct (lowerUnits_cases u) as [[R ->]|[[E ->]|(_ & _ & ->)]].
  - split; [discriminate|]. cbn [forallb].
    rewrite jsWhitespace_letter by lia. reflexivity.
  - split; [discriminate|]. reflexivity.
  - split; [discriminate|]. cbn [forallb]. now rewrite H.
Qed.

Lemma lowerAsciiAndDottedI_idem (s : list N) :
  lowerAsciiAndDottedI (lowerAsciiAndDottedI s) = lowerAsciiAndDottedI s.
Proof.
  unfold lowerAsciiAndDottedI. induction s as [|u s IH]; [reflexivity|].
  cbn [flat_map]. rewrite flat_map_app, IH. f_equal.
  destruct (lowerUnits_cases u) as [[R ->]|[[E ->]|(_ & _ & K)]].
  - cbn [flat_map]. rewrite lowerUnits_kept by lia. reflexivity.
  - reflexivity.
  - rewrite K. cbn [flat_map]. rewrite K. reflexivity.
Qed.

Lemma lowerAsciiAndDottedI_collapsed (t : list N) :
  replaceWhitespaceOver jsWhitespace 32%N t = t ->
  replaceWhitespaceOver jsWhitespace 32%N (lowerAsciiAndDottedI t)
  = lowerAsciiAndDottedI t.
Proof.
  intro H. unfold replaceWhitespaceOver, lowerAsciiAndDottedI in *.
  rewrite (replaceSpaceRunsOver_flat_map N jsWhitespace 32%N eq_refl lowerUnits
             lowerUnits_whitespace lowerUnits_word).
  now rewrite H.
Qed.

(** C9.  Normalizing twice under the same options gives what normalizing
    once gives, for every text over every set of code units.  [lowerCase]
    stands for the built-in [toLowerCase]; two facts about it are used,
    which it has on all code units: lower-casing a lower-cased text changes
    nothing, and lower-casing a text that whitespace collapsing leaves as it
    is gives such a text (it writes no whitespace and removes no unit
    between two spaces). *)
Theorem normalize_idempotent :
  forall (codeUnit : Type) (isSpace : codeUnit -> bool) (spaceUnit : codeUnit)
         (lowerCase : list codeUnit -> list codeUnit),
    isSpace spaceUnit = true ->
    (forall t, lowerCase (lowerCase t) = lowerCase t) ->
    (forall t, replaceWhitespaceOver isSpace spaceUnit t = t ->
               replaceWhitespaceOver isSpace spaceUnit (lowerCase t)
               = lowerCase t) ->
    forall (ignoreWhitespace ignoreCase : bool) (s : list codeUnit),
      normalizeOver isSpace spaceUnit lowerCase ignoreWhitespace ignoreCase
        (normalizeOver isSpace spaceUnit lowerCase ignoreWhitespace ignoreCase s)
      = normalizeOver isSpace spaceUnit lowerCase ignoreWhitespace ignoreCase s.
Proof.
  intros codeUnit isSpace spaceUnit lowerCase Hspace Hidem Hcollapsed iw ic s.
  apply normalizeOver_fixed; assumption.
Qed.

(** The text [I], tab, line feed, U+0130, two spaces, [S]: normalized under
    both options it is [i], space, U+0069 U+0307, space, [s], one unit
    longer than the collapsed text, and normalizing again gives the same. *)
Lemma normalize_idempotent_witness :
  normalizeOver jsWhitespace 32%N lowerAsciiAndDottedI true true
    [73; 9; 10; 304; 32; 32; 83]%N
  = [105; 32; 105; 775; 32; 115]%N
  /\ normalizeOver jsWhitespace 32%N lowerAsciiAndDottedI true true
       (normalizeOver jsWhitespace 32%N lowerAsciiAndDottedI true true
          [73; 9; 10; 304; 32; 32; 83]%N)
     = normalizeOver jsWhitespace 32%N lowerAsciiAndDottedI true true
         [73; 9; 10; 304; 32; 32; 83]%N.
Proof.
  split; [reflexivity|].
  apply (normalize_idempotent N jsWhitespace 32%N lowerAsciiAndDottedI).
  - reflexivity.
  - exact lowerAsciiAndDottedI_idem.
  - exact lowerAsciiAndDottedI_collapsed.
Defined.

(** On the code units below 256 the two facts hold of [toLowerCase] as it
    is written above, so [normalize] has the property as well. *)
Lemma toLowerCase_collapsed (t : str) :
  replaceWhitespaceOver is_space space t = t ->
  replaceWhitespaceOver is_space space (toLowerCase t) = toLowerCase t.
Proof.
  unfold replaceWhitespaceOver.
  rewrite <- !replaceSpaceRuns_replaceSpaceRunsOver. intro H.
  now rewrite replaceSpaceRuns_toLowerCase, H.
Qed.

Lemma normalize_fixed (ignoreWhitespace ignoreCase : bool) (s : str) :
  normalize ignoreWhitespace ignoreCase (normalize ignoreWhitespace ignoreCase s)
  = normalize ignoreWhitespace ignoreCase s.
Proof.
  rewrite !normalize_normalizeOver.
  apply normalizeOver_fixed;
    [reflexivity|exact toLowerCase_collapsed|exact toLowerCase_idem].
Qed.

(** ** Modification detection *)

(** Induction that follows a cursor moving by one or by two. *)
Lemma cursor_ind {A : Type} (P : list A -> Prop) :
  P [] ->
  (forall a, P [a]) ->
  (forall a b l, P l -> P (b :: l) -> P (a :: b :: l)) ->
  forall l, P l.
Proof.
  intros Hnil Hone Hstep l.
  enough (P l /\ forall a, P (a :: l)) by tauto.
  induction l as [|b l [IHl IHbl]]; split; auto.
Qed.

Lemma greedyPass_two (current next : Change) (rest : list Change) :
  greedyPass (current :: next :: rest)
  = if removed current && added next
    then Modified (value current) (value next) :: greedyPass rest
    else Regular current :: greedyPass (next :: rest).
Proof. reflexivity. Qed.

Lemma findModifiedBlocks_loop_shift (fuel : nat) (pre mid suf : list Change)
    (acc : list Processed) :
  findModifiedBlocks_loop fuel (pre ++ mid ++ suf) (length pre + length mid) acc
  = findModifiedBlocks_loop fuel ((pre ++ mid) ++ suf) (length (pre ++ mid)) acc.
Proof. now rewrite length_app, app_assoc. Qed.

Lemma findModifiedBlocks_loop_greedy (fuel : nat) :
  forall (pre suf : list Change) (acc : list Processed),
    length suf <= fuel ->
    findModifiedBlocks_loop fuel (pre ++ suf) (length pre) acc
    = acc ++ greedyPass suf.
Proof.
  induction fuel as [|fuel IH]; intros pre suf acc Hlen.
  - destruct suf; [|simpl in Hlen; lia]. simpl. now rewrite app_nil_r.
  - destruct suf as [|current rest].
    + simpl. rewrite app_nil_r.
      rewrite (proj2 (nth_error_None pre (length pre))) by lia.
      now rewrite app_nil_r.
    + cbn [findModifiedBlocks_loop].
      rewrite nth_error_app2, Nat.sub_diag by lia. cbn [nth_error].
      rewrite nth_error_app2 by lia.
      replace (length pre + 1 - length pre) with 1 by lia.
      cbn [nth_error].
      assert (Hone : forall acc',
                 findModifiedBlocks_loop fuel (pre ++ current :: rest)
                   (length pre + 1) acc'
                 = acc' ++ greedyPass rest).
      { intro acc'.
        etransitivity;
          [exact (findModifiedBlocks_loop_shift fuel pre [current] rest acc')|].
        apply IH. simpl in Hlen. lia. }
      destruct rest as [|next rest'].
      * cbn [nth_error].
        destruct (removed current && _); rewrite Hone, <- app_assoc; reflexivity.
      * cbn [nth_error]. rewrite greedyPass_two.
        replace (length pre + 1 <? length (pre ++ current :: next :: rest'))
          with true
          by (symmetry; apply Nat.ltb_lt; rewrite length_app; simpl; lia).
        rewrite Bool.andb_true_r.
        destruct (removed current); cbn [andb];
          [destruct (added next)|]; try (rewrite Hone, <- app_assoc; reflexivity).
        etransitivity;
          [exact (findModifiedBlocks_loop_shift fuel pre [current; next] rest' _)|].
        rewrite IH by (simpl in Hlen; lia).
        now rewrite <- app_assoc.
Qed.

Lemma findModifiedBlocks_greedyPass (ops : list Change) :
  findModifiedBlocks ops = greedyPass ops.
Proof.
  unfold findModifiedBlocks.
  exact (findModifiedBlocks_loop_greedy (length ops) [] ops [] (le_n _)).
Qed.

(** An element that is not added ends whatever pairing went on before it. *)
Lemma greedyPass_app_not_added (pre : list Change) (c : Change) (rest : list Change) :
  added c = false ->
  greedyPass (pre ++ c :: rest) = greedyPass pre ++ greedyPass (c :: rest).
Proof.
  intro Hc. induction pre as [|a|a b pre IH1 IH2] using cursor_ind.
  - reflexivity.
  - cbn [app]. rewrite greedyPass_two, Hc, Bool.andb_false_r. reflexivity.
  - change ((a :: b :: pre) ++ c :: rest) with (a :: b :: (pre ++ c :: rest)).
    rewrite !greedyPass_two.
    destruct (removed a && added b).
    + now rewrite IH1.
    + change (b :: pre ++ c :: rest) with ((b :: pre) ++ c :: rest).
      now rewrite IH2.
Qed.

(** C3.  Modification detection is one greedy pass from left to right: on
    an empty script nothing is emitted; a last element is emitted as it is;
    with a next element, a removed element followed by an added one gives
    one block and the pass goes on two elements further, otherwise the
    element is emitted as it is and the pass goes on with the next one.  A
    removed element, an unchanged one and an added one in a row are emitted
    as three independent elements, whatever stands before and after. *)
Theorem findModifiedBlocks_greedy :
  (forall ops, findModifiedBlocks ops = greedyPass ops)
  /\ findModifiedBlocks [] = []
  /\ (forall current, findModifiedBlocks [current] = [Regular current])
  /\ (forall current next rest,
        findModifiedBlocks (current :: next :: rest)
        = if removed current && added next
          then Modified (value current) (value next) :: findModifiedBlocks rest
          else Regular current :: findModifiedBlocks (next :: rest))
  /\ (forall pre a u b post,
        findModifiedBlocks (pre ++ Removed a :: Unchanged u :: Added b :: post)
        = findModifiedBlocks pre
            ++ Regular (Removed a) :: Regular (Unchanged u) :: Regular (Added b)
            :: findModifiedBlocks post).
Proof.
  split; [exact findModifiedBlocks_greedyPass|].
  split; [reflexivity|].
  split; [intro; now rewrite findModifiedBlocks_greedyPass|]. split.
  - intros. rewrite !findModifiedBlocks_greedyPass. apply greedyPass_two.
  - intros. rewrite !findModifiedBlocks_greedyPass.
    rewrite greedyPass_app_not_added by reflexivity.
    f_equal. rewrite greedyPass_two. cbn [removed added Removed Unchanged andb].
    f_equal. rewrite greedyPass_two. cbn [removed added Unchanged Added andb].
    f_equal. destruct post as [|p post]; [reflexivity|].
    rewrite greedyPass_two. reflexivity.
Qed.

(** ** The word-level highlighter *)

Section Highlighter.

Variable diffWordsWithSpace : str -> str -> list Change.

Lemma isEmpty_false (s : str) : s <> [] -> isEmpty s = false.
Proof. destruct s; [congruence|reflexivity]. Qed.

(** The string built by the method is the rendering of the spans. *)
Lemma processLine_renders_spans (line1 line2 : str) (isFile1 isFile2 : bool)
    (color : str) :
  _processLineWithWordDiff diffWordsWithSpace line1 line2 isFile1 isFile2 color
  = renderSpans (lineSpans diffWordsWithSpace line1 line2 isFile1 isFile2).
Proof.
  unfold _processLineWithWordDiff, lineSpans, renderSpans.
  destruct (isEmpty line1); [simpl; now rewrite app_nil_r|].
  destruct (isEmpty line2); [simpl; now rewrite app_nil_r|].
  generalize (diffWordsWithSpace line1 line2) as wordDiff.
  intro wordDiff.
  enough (forall result,
             fold_left _ wordDiff result
             = result
                 ++ concat (map renderSpan
                              (flat_map (wordSpan isFile1 isFile2) wordDiff)))
    as H by exact (H []).
  induction wordDiff as [|part wordDiff IH]; intro result; cbn [fold_left flat_map].
  - simpl. now rewrite app_nil_r.
  - rewrite IH, map_app, concat_app. unfold wordSpan at 2.
    destruct (added part && isFile2);
      [|destruct (removed part && isFile1);
        [|destruct (negb (added part) && negb (removed part))]];
      cbn [map concat renderSpan];
      rewrite ?app_nil_r, ?app_nil_l, <- ?app_assoc; reflexivity.
Qed.

(** The spans of one column when no element is both added and removed. *)
Lemma wordSpans_left (wordDiff : list Change) :
  forallb exclusiveFlags wordDiff = true ->
  flat_map (wordSpan true false) wordDiff
  = map (fun part => if removed part then RemovedWord (value part)
                     else UnchangedSpan (value part))
      (filter (fun part => negb (added part)) wordDiff).
Proof.
  induction wordDiff as [|[v a r] wordDiff IH]; [reflexivity|].
  cbn [forallb]. intros [Hx Hrest]%Bool.andb_true_iff.
  cbn [flat_map filter]. rewrite (IH Hrest).
  destruct a, r; try reflexivity. discriminate Hx.
Qed.

Lemma wordSpans_right (wordDiff : list Change) :
  forallb exclusiveFlags wordDiff = true ->
  flat_map (wordSpan false true) wordDiff
  = map (fun part => if added part then AddedWord (value part)
                     else UnchangedSpan (value part))
      (filter (fun part => negb (removed part)) wordDiff).
Proof.
  induction wordDiff as [|[v a r] wordDiff IH]; [reflexivity|].
  cbn [forallb]. intros [Hx Hrest]%Bool.andb_true_iff.
  cbn [flat_map filter]. rewrite (IH Hrest).
  destruct a, r; try reflexivity. discriminate Hx.
Qed.

Lemma spanText_left (wordDiff : list Change) :
  concat (map spanText
            (map (fun part => if removed part then RemovedWord (value part)
                              else UnchangedSpan (value part))
               (filter (fun part => negb (added part)) wordDiff)))
  = oldText wordDiff.
Proof.
  unfold oldText. rewrite map_map. f_equal. apply map_ext.
  intro part. now destruct (removed part).
Qed.

Lemma spanText_right (wordDiff : list Change) :
  concat (map spanText
            (map (fun part => if added part then AddedWord (value part)
                              else UnchangedSpan (value part))
               (filter (fun part => negb (removed part)) wordDiff)))
  = newText wordDiff.
Proof.
  unfold newText. rewrite map_map. f_equal. apply map_ext.
  intro part. now destruct (added part).
Qed.

Lemma lineSpans_empty_old (line : str) (isFile1 isFile2 : bool) :
  lineSpans diffWordsWithSpace [] line isFile1 isFile2 = [UnchangedSpan line].
Proof. reflexivity. Qed.

Lemma lineSpans_empty_new (line : str) (isFile1 isFile2 : bool) :
  lineSpans diffWordsWithSpace line [] isFile1 isFile2 = [UnchangedSpan line].
Proof. now destruct line. Qed.

(** The spans of two non-empty lines, column by column. *)
Lemma lineSpans_columns (oldLine newLine : str) :
  oldLine <> [] ->
  newLine <> [] ->
  forallb exclusiveFlags (diffWordsWithSpace oldLine newLine) = true ->
  lineSpans diffWordsWithSpace oldLine newLine true false
  = map (fun part => if removed part then RemovedWord (value part)
                     else UnchangedSpan (value part))
      (filter (fun part => negb (added part))
         (diffWordsWithSpace oldLine newLine))
  /\ lineSpans diffWordsWithSpace oldLine newLine false true
     = map (fun part => if added part then AddedWord (value part)
                        else UnchangedSpan (value part))
         (filter (fun part => negb (removed part))
            (diffWordsWithSpace oldLine newLine)).
Proof.
  intros Hold Hnew Hx. unfold lineSpans.
  rewrite (isEmpty_false _ Hold), (isEmpty_false _ Hnew).
  now rewrite (wordSpans_left _ Hx), (wordSpans_right _ Hx).
Qed.

Lemma lineSpans_texts (oldLine newLine : str) :
  oldLine <> [] ->
  newLine <> [] ->
  forallb exclusiveFlags (diffWordsWithSpace oldLine newLine) = true ->
  concat (map spanText (lineSpans diffWordsWithSpace oldLine newLine true false))
  = oldText (diffWordsWithSpace oldLine newLine)
  /\ concat (map spanText (lineSpans diffWordsWithSpace oldLine newLine false true))
     = newText (diffWordsWithSpace oldLine newLine).
Proof.
  intros Hold Hnew Hx.
  destruct (lineSpans_columns oldLine newLine Hold Hnew Hx) as [-> ->].
  now rewrite spanText_left, spanText_right.
Qed.

(** C5.  With an empty old line the highlighter returns the new line as
    one unchanged span, and with an empty new line the old line as one
    unchanged span, on either column; the word diff has no part in the
    result, and the string the method returns is the escaped line. *)
Theorem empty_side_single_span :
  forall (line : str) (isFile1 isFile2 : bool) (color : str),
    lineSpans diffWordsWithSpace [] line isFile1 isFile2 = [UnchangedSpan line]
    /\ lineSpans diffWordsWithSpace line [] isFile1 isFile2 = [UnchangedSpan line]
    /\ _processLineWithWordDiff diffWordsWithSpace [] line isFile1 isFile2 color
       = _escapeHtml line
    /\ _processLineWithWordDiff diffWordsWithSpace line [] isFile1 isFile2 color
       = _escapeHtml line.
Proof.
  intros line f1 f2 color.
  split; [apply lineSpans_empty_old|split; [apply lineSpans_empty_new|]].
  unfold _processLineWithWordDiff. cbn [isEmpty].
  destruct line; split; reflexivity.
Qed.

(** C6.  For two non-empty lines whose word diff keeps the flags
    exclusive: the left column keeps the unchanged elements as they are
    and the removed ones as [RemovedWord] and drops the added ones; the
    right column keeps the unchanged elements and the added ones as
    [AddedWord] and drops the removed ones.  When the word diff spells the
    two lines, the texts of the left spans spell the old line and those of
    the right spans the new line. *)
Theorem word_spans_by_column (oldLine newLine : str) :
  oldLine <> [] ->
  newLine <> [] ->
  forallb exclusiveFlags (diffWordsWithSpace oldLine newLine) = true ->
  oldText (diffWordsWithSpace oldLine newLine) = oldLine ->
  newText (diffWordsWithSpace oldLine newLine) = newLine ->
  lineSpans diffWordsWithSpace oldLine newLine true false
  = map (fun part => if removed part then RemovedWord (value part)
                     else UnchangedSpan (value part))
      (filter (fun part => negb (added part))
         (diffWordsWithSpace oldLine newLine))
  /\ lineSpans diffWordsWithSpace oldLine newLine false true
     = map (fun part => if added part then AddedWord (value part)
                        else UnchangedSpan (value part))
         (filter (fun part => negb (removed part))
            (diffWordsWithSpace oldLine newLine))
  /\ concat (map spanText
               (lineSpans diffWordsWithSpace oldLine newLine
                  true false))
     = oldLine
  /\ concat (map spanText
               (lineSpans diffWordsWithSpace oldLine newLine
                  false true))
     = newLine.
Proof.
  intros Hold Hnew Hx Ho Hn.
  destruct (lineSpans_texts oldLine newLine Hold Hnew Hx) as [-> ->].
  destruct (lineSpans_columns oldLine newLine Hold Hnew Hx) as [-> ->].
  auto.
Qed.

End Highlighter.

Lemma word_spans_by_column_witness :
  lineSpans wholeTextDiff (lit "x") (lit "y") true false
  = [RemovedWord (lit "x")]
  /\ lineSpans wholeTextDiff (lit "x") (lit "y") false true
     = [AddedWord (lit "y")]
  /\ concat (map spanText
               (lineSpans wholeTextDiff (lit "x") (lit "y")
                  true false))
     = lit "x"
  /\ concat (map spanText
               (lineSpans wholeTextDiff (lit "x") (lit "y")
                  false true))
     = lit "y".
Proof.
  apply (word_spans_by_column wholeTextDiff (lit "x") (lit "y"));
    solve [discriminate | reflexivity].
Defined.

(** ** Row emission *)

Section Emission.

Variable diffWordsWithSpace : str -> str -> list Change.

(** The line at index [i], the empty string past the end:
    [i < lines.length ? lines[i] : ""]. *)
Lemma guarded_nth (lines : list str) (i : nat) :
  (if i <? length lines then nth i lines [] else []) = nth i lines [].
Proof.
  destruct (i <? length lines) eqn:E; [reflexivity|].
  apply Nat.ltb_ge in E. symmetry. now apply nth_overflow.
Qed.

(** The rows of a modified block after [n] turns of its loop. *)
Lemma emitModified_fold (oldLines newLines : list str) (n : nat) (st : Emit) :
  fold_left (emitModifiedLine diffWordsWithSpace oldLines newLines) (seq 0 n) st
  = mkEmit
      (leftRows st ++
         map (fun i => Content ClsModified (leftNumber st + i)
                         (lineSpans diffWordsWithSpace (nth i oldLines []) (nth i newLines [])
                            true false))
           (seq 0 n))
      (rightRows st ++
         map (fun i => Content ClsModified (rightNumber st + i)
                         (lineSpans diffWordsWithSpace (nth i oldLines []) (nth i newLines [])
                            false true))
           (seq 0 n))
      (leftNumber st + n)
      (rightNumber st + n).
Proof.
  induction n as [|n IH].
  - destruct st. simpl. now rewrite !app_nil_r, !Nat.add_0_r.
  - rewrite seq_S, fold_left_app, IH. cbn [fold_left Nat.add].
    unfold emitModifiedLine. cbn [leftRows rightRows leftNumber rightNumber].
    rewrite !guarded_nth, !map_app, <- !app_assoc, !Nat.add_succ_r.
    reflexivity.
Qed.

(** The rows of the three kinds of regular elements, line by line. *)
Lemma emitLines_snoc {A : Type} (f : Emit -> A -> Emit) (lines : list A) (x : A)
    (st : Emit) :
  fold_left f (lines ++ [x]) st = f (fold_left f lines st) x.
Proof. now rewrite fold_left_app. Qed.

Lemma nth_snoc_last (lines : list str) (x : str) :
  nth (length lines) (lines ++ [x]) [] = x.
Proof. now rewrite app_nth2, Nat.sub_diag by lia. Qed.

Lemma map_nth_snoc {B : Type} (g : nat -> str -> B) (lines : list str) (x : str) :
  map (fun i => g i (nth i (lines ++ [x]) [])) (seq 0 (length lines))
  = map (fun i => g i (nth i lines [])) (seq 0 (length lines)).
Proof.
  apply map_ext_in. intros i Hi. apply in_seq in Hi.
  now rewrite app_nth1 by lia.
Qed.

Lemma emitAdded_fold (lines : list str) (st : Emit) :
  fold_left (emitAddedLine diffWordsWithSpace) lines st
  = mkEmit
      (leftRows st ++ repeat Placeholder (length lines))
      (rightRows st ++
         map (fun i => Content ClsAdded (rightNumber st + i)
                         [UnchangedSpan (nth i lines [])])
           (seq 0 (length lines)))
      (leftNumber st)
      (rightNumber st + length lines).
Proof.
  induction lines as [|x lines IH] using rev_ind.
  - destruct st. simpl. now rewrite !app_nil_r, Nat.add_0_r.
  - rewrite emitLines_snoc, IH, length_app. cbn [length].
    rewrite Nat.add_1_r, seq_S, map_app. cbn [repeat]. rewrite repeat_cons.
    cbn [map Nat.add]. rewrite nth_snoc_last.
    rewrite (map_nth_snoc
               (fun i l => Content ClsAdded (rightNumber st + i) [UnchangedSpan l])).
    unfold emitAddedLine.
    cbn [leftRows rightRows leftNumber rightNumber lineSpans isEmpty].
    rewrite <- !app_assoc, Nat.add_succ_r. reflexivity.
Qed.

Lemma emitRemoved_fold (lines : list str) (st : Emit) :
  fold_left (emitRemovedLine diffWordsWithSpace) lines st
  = mkEmit
      (leftRows st ++
         map (fun i => Content ClsRemoved (leftNumber st + i)
                         [UnchangedSpan (nth i lines [])])
           (seq 0 (length lines)))
      (rightRows st ++ repeat Placeholder (length lines))
      (leftNumber st + length lines)
      (rightNumber st).
Proof.
  induction lines as [|x lines IH] using rev_ind.
  - destruct st. simpl. now rewrite !app_nil_r, Nat.add_0_r.
  - rewrite emitLines_snoc, IH, length_app. cbn [length].
    rewrite Nat.add_1_r, seq_S, map_app. cbn [repeat]. rewrite repeat_cons.
    cbn [map Nat.add]. rewrite nth_snoc_last.
    rewrite (map_nth_snoc
               (fun i l => Content ClsRemoved (leftNumber st + i) [UnchangedSpan l])).
    unfold emitRemovedLine.
    cbn [leftRows rightRows leftNumber rightNumber].
    rewrite lineSpans_empty_new.
    rewrite <- !app_assoc, Nat.add_succ_r. reflexivity.
Qed.

Lemma emitUnchanged_fold (lines : list str) (st : Emit) :
  fold_left emitUnchangedLine lines st
  = mkEmit
      (leftRows st ++
         map (fun i => Content ClsUnchanged (leftNumber st + i)
                         [UnchangedSpan (nth i lines [])])
           (seq 0 (length lines)))
      (rightRows st ++
         map (fun i => Content ClsUnchanged (rightNumber st + i)
                         [UnchangedSpan (nth i lines [])])
           (seq 0 (length lines)))
      (leftNumber st + length lines)
      (rightNumber st + length lines).
Proof.
  induction lines as [|x lines IH] using rev_ind.
  - destruct st. simpl. now rewrite !app_nil_r, !Nat.add_0_r.
  - rewrite emitLines_snoc, IH, length_app. cbn [length].
    rewrite Nat.add_1_r, seq_S, !map_app.
    cbn [map Nat.add]. rewrite nth_snoc_last.
    rewrite (map_nth_snoc
               (fun i l => Content ClsUnchanged (leftNumber st + i) [UnchangedSpan l])).
    rewrite (map_nth_snoc
               (fun i l => Content ClsUnchanged (rightNumber st + i) [UnchangedSpan l])).
    unfold emitUnchangedLine.
    cbn [leftRows rightRows leftNumber rightNumber].
    rewrite <- !app_assoc, !Nat.add_succ_r. reflexivity.
Qed.

End Emission.

(** ** The strings and the rows *)

Section Rendering.

Variable diffLines : str -> str -> list Change.
Variable diffWordsWithSpace : str -> str -> list Change.
Variable addColor deleteColor modifyColor : str.

Lemma renderRows_snoc (rows : list Row) (r : Row) :
  renderRows addColor deleteColor modifyColor (rows ++ [r])
  = renderRows addColor deleteColor modifyColor rows
      ++ renderRow addColor deleteColor modifyColor r.
Proof.
  unfold renderRows. rewrite map_app, concat_app. cbn [map concat].
  now rewrite app_nil_r.
Qed.

Lemma fold_left_render {A : Type} (f : Html -> A -> Html) (g : Emit -> A -> Emit)
    (xs : list A) :
  (forall st x,
      f (renderEmit addColor deleteColor modifyColor st) x
      = renderEmit addColor deleteColor modifyColor (g st x)) ->
  forall st,
    fold_left f xs (renderEmit addColor deleteColor modifyColor st)
    = renderEmit addColor deleteColor modifyColor (fold_left g xs st).
Proof.
  intro Hstep. induction xs as [|x xs IH]; intro st; [reflexivity|].
  cbn [fold_left]. now rewrite Hstep, IH.
Qed.

Lemma appendModifiedLine_render (oldLines newLines : list str) (st : Emit) (i : nat) :
  appendModifiedLine diffWordsWithSpace modifyColor oldLines newLines
    (renderEmit addColor deleteColor modifyColor st) i
  = renderEmit addColor deleteColor modifyColor
      (emitModifiedLine diffWordsWithSpace oldLines newLines st i).
Proof.
  unfold appendModifiedLine, emitModifiedLine, renderEmit.
  cbn [file1Html file2Html lineNumber1 lineNumber2
       leftRows rightRows leftNumber rightNumber].
  rewrite !renderRows_snoc, !processLine_renders_spans. reflexivity.
Qed.

Lemma appendAddedLine_render (st : Emit) (line : str) :
  appendAddedLine diffWordsWithSpace addColor
    (renderEmit addColor deleteColor modifyColor st) line
  = renderEmit addColor deleteColor modifyColor
      (emitAddedLine diffWordsWithSpace st line).
Proof.
  unfold appendAddedLine, emitAddedLine, renderEmit.
  cbn [file1Html file2Html lineNumber1 lineNumber2
       leftRows rightRows leftNumber rightNumber].
  rewrite !renderRows_snoc, !processLine_renders_spans. reflexivity.
Qed.

Lemma appendRemovedLine_render (st : Emit) (line : str) :
  appendRemovedLine diffWordsWithSpace deleteColor
    (renderEmit addColor deleteColor modifyColor st) line
  = renderEmit addColor deleteColor modifyColor
      (emitRemovedLine diffWordsWithSpace st line).
Proof.
  unfold appendRemovedLine, emitRemovedLine, renderEmit.
  cbn [file1Html file2Html lineNumber1 lineNumber2
       leftRows rightRows leftNumber rightNumber].
  rewrite !renderRows_snoc, !processLine_renders_spans. reflexivity.
Qed.

Lemma appendUnchangedLine_render (st : Emit) (line : str) :
  appendUnchangedLine (renderEmit addColor deleteColor modifyColor st) line
  = renderEmit addColor deleteColor modifyColor (emitUnchangedLine st line).
Proof.
  unfold appendUnchangedLine, emitUnchangedLine, renderEmit.
  cbn [file1Html file2Html lineNumber1 lineNumber2
       leftRows rightRows leftNumber rightNumber].
  rewrite !renderRows_snoc. cbn [renderRow renderSpans map concat renderSpan].
  now rewrite app_nil_r.
Qed.

Lemma appendPart_render (st : Emit) (part : Processed) :
  appendPart diffWordsWithSpace addColor deleteColor modifyColor
    (renderEmit addColor deleteColor modifyColor st) part
  = renderEmit addColor deleteColor modifyColor
      (emitPart diffWordsWithSpace st part).
Proof.
  destruct part as [oldValue newValue|part]; cbn [appendPart emitPart].
  - apply fold_left_render. intros. apply appendModifiedLine_render.
  - destruct (added part); [|destruct (removed part)]; apply fold_left_render.
    + exact appendAddedLine_render.
    + exact appendRemovedLine_render.
    + exact appendUnchangedLine_render.
Qed.

(** X12.  The two strings [_getHtmlForWebview] builds are the rows of
    [compareRows], rendered: each string is one [<div>] per row of its
    column, in order, and the two counters are those of the rows. *)
Lemma getHtmlForWebview_rows (ignoreWhitespace ignoreCase : bool)
    (file1Content file2Content : str) :
  _getHtmlForWebview diffLines diffWordsWithSpace addColor deleteColor modifyColor
    ignoreWhitespace ignoreCase file1Content file2Content
  = renderEmit addColor deleteColor modifyColor
      (compareRows diffLines diffWordsWithSpace
         ignoreWhitespace ignoreCase file1Content file2Content).
Proof.
  unfold _getHtmlForWebview, compareRows, alignRows.
  change htmlStart with (renderEmit addColor deleteColor modifyColor emitStart).
  apply fold_left_render. exact appendPart_render.
Qed.

End Rendering.

(** ** The two columns *)

Lemma repeat_map_seq {A : Type} (x : A) (n a : nat) :
  repeat x n = map (fun _ => x) (seq a n).
Proof.
  revert a. induction n as [|n IH]; intro a; simpl; [reflexivity|].
  now rewrite <- IH.
Qed.

Lemma Forall2_map_seq {A B : Type} (P : A -> B -> Prop) (f : nat -> A)
    (g : nat -> B) (a n : nat) :
  (forall i, P (f i) (g i)) ->
  Forall2 P (map f (seq a n)) (map g (seq a n)).
Proof.
  intro H. revert a. induction n as [|n IH]; intro a; simpl; constructor; auto.
Qed.

Lemma nth_error_app_map_seq {A : Type} (l : list A) (f : nat -> A) (n i : nat) :
  i < n ->
  nth_error (l ++ map f (seq 0 n)) (length l + i) = Some (f i).
Proof.
  intro Hi. rewrite nth_error_app2 by lia.
  replace (length l + i - length l) with i by lia.
  rewrite nth_error_map, nth_error_nth' with (d := 0) by (rewrite length_seq; lia).
  now rewrite seq_nth by lia.
Qed.

Section Columns.

Variable diffLines : str -> str -> list Change.
Variable diffWordsWithSpace : str -> str -> list Change.

(** What one element of [processedDiff] appends to the two columns. *)
Lemma emitPart_appends (st : Emit) (part : Processed) :
  exists ls rs,
    leftRows (emitPart diffWordsWithSpace st part) = leftRows st ++ ls
    /\ rightRows (emitPart diffWordsWithSpace st part) = rightRows st ++ rs
    /\ Forall2 (fun l r => alignedPair l r = true) ls rs.
Proof.
  destruct part as [oldValue newValue|part]; cbn [emitPart].
  - rewrite emitModified_fold. do 2 eexists.
    repeat split. now apply Forall2_map_seq.
  - destruct (added part); [|destruct (removed part)].
    + rewrite emitAdded_fold. do 2 eexists. repeat split.
      rewrite (repeat_map_seq _ _ 0). now apply Forall2_map_seq.
    + rewrite emitRemoved_fold. do 2 eexists. repeat split.
      rewrite (repeat_map_seq _ _ 0). now apply Forall2_map_seq.
    + rewrite emitUnchanged_fold. do 2 eexists. repeat split.
      now apply Forall2_map_seq.
Qed.

Lemma emitParts_aligned (parts : list Processed) (st : Emit) :
  Forall2 (fun l r => alignedPair l r = true) (leftRows st) (rightRows st) ->
  Forall2 (fun l r => alignedPair l r = true)
    (leftRows (fold_left (emitPart diffWordsWithSpace) parts st))
    (rightRows (fold_left (emitPart diffWordsWithSpace) parts st)).
Proof.
  revert st. induction parts as [|part parts IH]; intros st Hst; [exact Hst|].
  cbn [fold_left]. apply IH.
  destruct (emitPart_appends st part) as (ls & rs & -> & -> & H).
  now apply Forall2_app.
Qed.

Lemma alignRows_aligned (script : list Change) :
  Forall2 (fun l r => alignedPair l r = true)
    (leftRows (alignRows diffWordsWithSpace script))
    (rightRows (alignRows diffWordsWithSpace script)).
Proof. apply emitParts_aligned. constructor. Qed.

(** C2.  The two columns have the same number of rows; at no index are both
    rows placeholders; a row of class modified faces a row of class
    modified, so that at the indices of a modified block both rows are
    content rows. *)
Theorem columns_aligned :
  forall (ignoreWhitespace ignoreCase : bool) (file1Content file2Content : str),
    length (leftRows (compareRows diffLines diffWordsWithSpace
                         ignoreWhitespace ignoreCase file1Content file2Content))
    = length (rightRows (compareRows diffLines diffWordsWithSpace
                           ignoreWhitespace ignoreCase file1Content file2Content))
    /\ Forall2
         (fun l r =>
            isPlaceholder l && isPlaceholder r = false
            /\ isModifiedRow l = isModifiedRow r
            /\ (isModifiedRow l = true ->
                isPlaceholder l = false /\ isPlaceholder r = false))
         (leftRows (compareRows diffLines diffWordsWithSpace
                       ignoreWhitespace ignoreCase file1Content file2Content))
         (rightRows (compareRows diffLines diffWordsWithSpace
                       ignoreWhitespace ignoreCase file1Content file2Content)).
Proof.
  intros iw ic f1 f2. unfold compareRows.
  pose proof (alignRows_aligned
                (diffLines (normalize iw ic f1) (normalize iw ic f2))) as H.
  split; [exact (Forall2_length H)|].
  eapply Forall2_impl; [|exact H].
  intros [|[] n s] [|[] n' s']; cbn; intro E; try discriminate E;
    repeat split; auto; discriminate.
Qed.

(** C4.  A modified block splits both values into lines (a trailing empty
    line dropped), and gives each column one content row of class modified
    per index below the larger of the two line counts, numbered from the
    column's counter onwards; the row at index [i] holds the highlighter's
    spans for the two lines at [i], a missing line read as the empty
    string; both counters grow by that number of rows. *)
Theorem modified_block_row_pairs :
  forall (st : Emit) (oldValue newValue : str),
    emitPart diffWordsWithSpace st (Modified oldValue newValue)
    = mkEmit
        (leftRows st ++
           map (fun i =>
                  Content ClsModified (leftNumber st + i)
                    (lineSpans diffWordsWithSpace
                       (nth i (splitLines oldValue) [])
                       (nth i (splitLines newValue) []) true false))
             (seq 0 (Nat.max (length (splitLines oldValue))
                             (length (splitLines newValue)))))
        (rightRows st ++
           map (fun i =>
                  Content ClsModified (rightNumber st + i)
                    (lineSpans diffWordsWithSpace
                       (nth i (splitLines oldValue) [])
                       (nth i (splitLines newValue) []) false true))
             (seq 0 (Nat.max (length (splitLines oldValue))
                             (length (splitLines newValue)))))
        (leftNumber st + Nat.max (length (splitLines oldValue))
                                  (length (splitLines newValue)))
        (rightNumber st + Nat.max (length (splitLines oldValue))
                                  (length (splitLines newValue)))
    /\ length (leftRows (emitPart diffWordsWithSpace st (Modified oldValue newValue)))
       = length (leftRows st)
         + Nat.max (length (splitLines oldValue)) (length (splitLines newValue))
    /\ length (rightRows (emitPart diffWordsWithSpace st (Modified oldValue newValue)))
       = length (rightRows st)
         + Nat.max (length (splitLines oldValue)) (length (splitLines newValue)).
Proof.
  intros st oldValue newValue. cbn [emitPart]. rewrite emitModified_fold.
  cbn [leftRows rightRows].
  rewrite !length_app, !length_map, !length_seq. auto.
Qed.

(** C10.  In a modified block, at an index where the old line is empty or
    missing both columns show the new line as one plain span, and at an
    index where the new line is empty or missing both columns show the old
    line; so past the end of the shorter side, the shorter side's rows
    repeat the lines of the longer side. *)
Theorem modified_block_empty_side (st : Emit) (oldValue newValue : str) (i : nat) :
  i < Nat.max (length (splitLines oldValue)) (length (splitLines newValue)) ->
  (nth i (splitLines oldValue) [] = [] ->
   nth_error (leftRows (emitPart diffWordsWithSpace st (Modified oldValue newValue)))
     (length (leftRows st) + i)
   = Some (Content ClsModified (leftNumber st + i)
             [UnchangedSpan (nth i (splitLines newValue) [])])
   /\ nth_error (rightRows (emitPart diffWordsWithSpace st (Modified oldValue newValue)))
        (length (rightRows st) + i)
      = Some (Content ClsModified (rightNumber st + i)
                [UnchangedSpan (nth i (splitLines newValue) [])]))
  /\ (nth i (splitLines newValue) [] = [] ->
      nth_error (leftRows (emitPart diffWordsWithSpace st (Modified oldValue newValue)))
        (length (leftRows st) + i)
      = Some (Content ClsModified (leftNumber st + i)
                [UnchangedSpan (nth i (splitLines oldValue) [])])
      /\ nth_error (rightRows (emitPart diffWordsWithSpace st (Modified oldValue newValue)))
           (length (rightRows st) + i)
         = Some (Content ClsModified (rightNumber st + i)
                   [UnchangedSpan (nth i (splitLines oldValue) [])]))
  /\ (length (splitLines oldValue) <= i -> nth i (splitLines oldValue) [] = [])
  /\ (length (splitLines newValue) <= i -> nth i (splitLines newValue) [] = []).
Proof.
  intro Hi. cbn [emitPart]. rewrite emitModified_fold. cbn [leftRows rightRows].
  rewrite !nth_error_app_map_seq by exact Hi.
  split; [|split; [|split; intro; now apply nth_overflow]].
  - intros ->. now rewrite !lineSpans_empty_old.
  - intros ->. now rewrite !lineSpans_empty_new.
Qed.

End Columns.

Lemma modified_block_empty_side_witness :
  nth_error (leftRows (emitPart wholeTextDiff emitStart
                          (Modified text_x_y_nl text_z_nl))) 1
  = Some (Content ClsModified 2 [UnchangedSpan (lit "y")])
  /\ nth_error (rightRows (emitPart wholeTextDiff emitStart
                             (Modified text_x_y_nl text_z_nl))) 1
     = Some (Content ClsModified 2 [UnchangedSpan (lit "y")]).
Proof.
  apply (proj1 (proj2 (modified_block_empty_side wholeTextDiff emitStart
                         text_x_y_nl text_z_nl 1 (le_n 2)))).
  reflexivity.
Defined.

Section PureHunks.

Variable diffLines : str -> str -> list Change.
Variable diffWordsWithSpace : str -> str -> list Change.

(** C8.  A pure added element gives the left column one placeholder per
    line and the right column one content row of class added per line, in
    order, and only the right counter grows; a pure removed element gives
    the left column one content row of class removed per line, each with
    the whole line as its single span (the span of the highlighter's
    empty-side case: the row's class marks the line as removed), and the
    right column one placeholder per line, and only the left counter
    grows.  When the line diff of the
    empty text and of the text "a", line feed, "b" is that text as one added
    element, the left column is two placeholders and the right column the
    added rows "a" and "b", numbered 1 and 2. *)
Theorem pure_addition_and_removal :
  (forall (st : Emit) (v : str),
      emitPart diffWordsWithSpace st (Regular (Added v))
      = mkEmit
          (leftRows st ++ repeat Placeholder (length (splitLines v)))
          (rightRows st ++
             map (fun i => Content ClsAdded (rightNumber st + i)
                             [UnchangedSpan (nth i (splitLines v) [])])
               (seq 0 (length (splitLines v))))
          (leftNumber st)
          (rightNumber st + length (splitLines v)))
  /\ (forall (st : Emit) (v : str),
         emitPart diffWordsWithSpace st (Regular (Removed v))
         = mkEmit
             (leftRows st ++
                map (fun i => Content ClsRemoved (leftNumber st + i)
                                [UnchangedSpan (nth i (splitLines v) [])])
                  (seq 0 (length (splitLines v))))
             (rightRows st ++ repeat Placeholder (length (splitLines v)))
             (leftNumber st + length (splitLines v))
             (rightNumber st))
  /\ (forall ignoreCase : bool,
         diffLines [] text_a_b = [Added text_a_b] ->
         leftRows (compareRows diffLines diffWordsWithSpace
                      false ignoreCase [] text_a_b)
         = [Placeholder; Placeholder]
         /\ rightRows (compareRows diffLines diffWordsWithSpace
                         false ignoreCase [] text_a_b)
            = [Content ClsAdded 1 [UnchangedSpan (lit "a")];
               Content ClsAdded 2 [UnchangedSpan (lit "b")]]).
Proof.
  split; [|split].
  - intros. cbn [emitPart Added added value]. apply emitAdded_fold.
  - intros. cbn [emitPart Removed added removed value]. apply emitRemoved_fold.
  - intros ic H. unfold compareRows.
    assert (normalize false ic [] = []) as -> by (now destruct ic).
    assert (normalize false ic text_a_b = text_a_b) as -> by (now destruct ic).
    rewrite H. split; reflexivity.
Qed.

End PureHunks.

Lemma pure_addition_and_removal_witness :
  leftRows (compareRows wholeTextDiff wholeTextDiff false false [] text_a_b)
  = [Placeholder; Placeholder]
  /\ rightRows (compareRows wholeTextDiff wholeTextDiff false false [] text_a_b)
     = [Content ClsAdded 1 [UnchangedSpan (lit "a")];
        Content ClsAdded 2 [UnchangedSpan (lit "b")]].
Proof.
  apply (proj2 (proj2 (pure_addition_and_removal wholeTextDiff wholeTextDiff))).
  reflexivity.
Defined.

(** ** Lines and texts *)

Lemma split_nl_not_nil (s : str) : split_nl s <> [].
Proof.
  destruct s as [|c s]; simpl; [discriminate|].
  destruct (is_nl c); [discriminate|].
  destruct (split_nl s); discriminate.
Qed.

Lemma popLastEmpty_cons (l : str) (lines : list str) :
  lines <> [] -> popLastEmpty (l :: lines) = l :: popLastEmpty lines.
Proof.
  destruct lines as [|x xs]; [congruence|]. intros _.
  unfold popLastEmpty. cbn [length Nat.sub]. rewrite Nat.sub_0_r.
  cbn [nth_error].
  destruct (nth_error (x :: xs) (length xs)) as [[|]|]; reflexivity.
Qed.

Lemma splitLines_cons_nl (c : ascii) (rest : str) :
  is_nl c = true -> splitLines (c :: rest) = [] :: splitLines rest.
Proof.
  intro Hc. unfold splitLines. cbn [split_nl]. rewrite Hc.
  apply popLastEmpty_cons, split_nl_not_nil.
Qed.

Lemma splitLines_cons_other (c : ascii) (rest : str) :
  is_nl c = false ->
  splitLines (c :: rest)
  = match splitLines rest with
    | l :: ls => (c :: l) :: ls
    | [] => [[c]]
    end.
Proof.
  intro Hc. unfold splitLines. cbn [split_nl]. rewrite Hc.
  destruct (split_nl rest) as [|l [|y ys]] eqn:E.
  - now apply split_nl_not_nil in E.
  - destruct l; reflexivity.
  - rewrite (popLastEmpty_cons (c :: l)), (popLastEmpty_cons l) by discriminate.
    reflexivity.
Qed.

Lemma endsWithNl_cons (c : ascii) (rest : str) :
  endsWithNl (c :: rest) = if isEmpty rest then is_nl c else endsWithNl rest.
Proof.
  unfold endsWithNl. cbn [rev].
  destruct rest as [|x xs]; [reflexivity|]. cbn [isEmpty rev].
  destruct (rev xs ++ [x]) eqn:E; [|reflexivity].
  now apply app_eq_nil in E.
Qed.

Lemma endsWithNl_app (v x : str) :
  x <> [] -> endsWithNl (v ++ x) = endsWithNl x.
Proof.
  intro Hx. induction v as [|c v IH]; [reflexivity|].
  cbn [app]. rewrite endsWithNl_cons, IH.
  destruct (v ++ x) eqn:E; [|reflexivity].
  apply app_eq_nil in E. tauto.
Qed.

Lemma endsWithNl_snoc (x : str) : endsWithNl (x ++ [nl]) = true.
Proof. now rewrite endsWithNl_app by discriminate. Qed.

Lemma terminate_cons (c : ascii) (rest : str) :
  terminate (c :: rest)
  = c :: (if isEmpty rest then (if is_nl c then [] else [nl]) else terminate rest).
Proof.
  unfold terminate. rewrite endsWithNl_cons. cbn [isEmpty orb].
  destruct rest as [|x xs]; cbn [isEmpty orb app].
  - now destruct (is_nl c).
  - now destruct (endsWithNl (x :: xs)).
Qed.

Lemma terminate_nil_inv (s : str) : terminate s = [] -> s = [].
Proof. destruct s; [reflexivity|]. rewrite terminate_cons. discriminate. Qed.

Lemma unlines_splitLines (v : str) : unlines (splitLines v) = terminate v.
Proof.
  induction v as [|c v IH]; [reflexivity|].
  rewrite terminate_cons. destruct (is_nl c) eqn:Hc.
  - rewrite (splitLines_cons_nl c v Hc). unfold unlines in *. cbn [flat_map app].
    rewrite IH. apply Ascii.eqb_eq in Hc. subst c.
    destruct v; reflexivity.
  - rewrite (splitLines_cons_other c v Hc).
    destruct (splitLines v) as [|l ls] eqn:E.
    + symmetry in IH. apply terminate_nil_inv in IH. now subst v.
    + destruct v as [|d v']; [discriminate E|].
      cbn [isEmpty]. rewrite <- IH. reflexivity.
Qed.

Lemma unlines_app (ls ls' : list str) :
  unlines (ls ++ ls') = unlines ls ++ unlines ls'.
Proof. apply flat_map_app. Qed.

Lemma unlines_joinLines (lines : list str) :
  lines <> [] -> unlines lines = joinLines lines ++ [nl].
Proof.
  induction lines as [|l [|l' more] IH]; [congruence| |]; intros _.
  - unfold unlines. simpl. now rewrite app_nil_r.
  - change (unlines (l :: l' :: more)) with ((l ++ [nl]) ++ unlines (l' :: more)).
    rewrite IH by discriminate. cbn [joinLines].
    now rewrite <- !app_assoc.
Qed.

Lemma chomp_snoc (x : str) : chomp (x ++ [nl]) = x.
Proof. unfold chomp. now rewrite endsWithNl_snoc, removelast_last. Qed.

Lemma joinLines_chomp (lines : list str) :
  joinLines lines = chomp (unlines lines).
Proof.
  destruct lines as [|l more]; [reflexivity|].
  now rewrite unlines_joinLines, chomp_snoc by discriminate.
Qed.

Lemma chomp_terminate (s : str) : chomp (terminate s) = chomp s.
Proof.
  unfold terminate. destruct s as [|c s]; [reflexivity|]. cbn [isEmpty orb].
  destruct (endsWithNl (c :: s)) eqn:E; [reflexivity|].
  rewrite chomp_snoc. unfold chomp. now rewrite E.
Qed.

Lemma terminate_whole (v : str) :
  endsWithNl v = true -> terminate v = v.
Proof. intro H. unfold terminate. rewrite H. now rewrite Bool.orb_true_r. Qed.

Lemma terminate_app (v x : str) :
  endsWithNl v = true -> terminate (v ++ x) = v ++ terminate x.
Proof.
  intro Hv. destruct x as [|c x].
  - change (terminate []) with (@nil ascii). rewrite !app_nil_r.
    now apply terminate_whole.
  - unfold terminate. rewrite endsWithNl_app by discriminate.
    cbn [isEmpty orb]. destruct v; cbn [app isEmpty orb].
    + reflexivity.
    + destruct (endsWithNl (c :: x)); [reflexivity|].
      now rewrite <- app_assoc.
Qed.

Lemma terminate_concat (values : list str) :
  wholeLines values = true ->
  concat (map terminate values) = terminate (concat values).
Proof.
  induction values as [|v [|w more] IH]; intro H; [reflexivity| |].
  - simpl. now rewrite !app_nil_r.
  - cbn [wholeLines] in H. apply Bool.andb_true_iff in H as [Hv Hmore].
    change (concat (map terminate (v :: w :: more)))
      with (terminate v ++ concat (map terminate (w :: more))).
    rewrite IH by exact Hmore.
    change (concat (v :: w :: more)) with (v ++ concat (w :: more)).
    now rewrite terminate_app, terminate_whole.
Qed.

Lemma unlines_flat_map_splitLines (values : list str) :
  unlines (flat_map splitLines values) = concat (map terminate values).
Proof.
  induction values as [|v values IH]; [reflexivity|].
  cbn [flat_map map concat]. now rewrite unlines_app, unlines_splitLines, IH.
Qed.

(** The lines of the elements of one column, joined by line feeds, spell
    the column's text up to its final line feed. *)
Lemma joinLines_splitLines (values : list str) :
  wholeLines values = true ->
  joinLines (flat_map splitLines values) = chomp (concat values).
Proof.
  intro H.
  now rewrite joinLines_chomp, unlines_flat_map_splitLines, terminate_concat,
    chomp_terminate.
Qed.

(** ** The texts of the columns *)

Lemma contentTexts_app (rows rows' : list Row) :
  contentTexts (rows ++ rows') = contentTexts rows ++ contentTexts rows'.
Proof. unfold contentTexts. now rewrite filter_app, map_app. Qed.

Lemma contentTexts_placeholders (n : nat) :
  contentTexts (repeat Placeholder n) = [].
Proof. induction n as [|n IH]; [reflexivity|exact IH]. Qed.

Lemma contentTexts_content (cls : RowClass) (number : nat -> nat)
    (spans : nat -> list WordSpan) (indices : list nat) :
  contentTexts (map (fun i => Content cls (number i) (spans i)) indices)
  = map (fun i => concat (map spanText (spans i))) indices.
Proof.
  induction indices as [|i indices IH]; [reflexivity|].
  cbn [map]. unfold contentTexts in *. cbn [filter isPlaceholder negb map rowText].
  now rewrite IH.
Qed.

Lemma map_nth_seq (lines : list str) :
  map (fun i => nth i lines []) (seq 0 (length lines)) = lines.
Proof.
  induction lines as [|l lines IH]; [reflexivity|].
  cbn [length seq map nth]. rewrite <- seq_shift, map_map. cbn [nth].
  now rewrite IH.
Qed.

Lemma contentTexts_plain (cls : RowClass) (number : nat -> nat) (lines : list str) :
  contentTexts
    (map (fun i => Content cls (number i) [UnchangedSpan (nth i lines [])])
       (seq 0 (length lines)))
  = lines.
Proof.
  rewrite (contentTexts_content cls number
             (fun i => [UnchangedSpan (nth i lines [])])).
  etransitivity; [|exact (map_nth_seq lines)]. apply map_ext.
  intro i. cbn. now rewrite app_nil_r.
Qed.

Section Reconstruction.

Variable diffLines : str -> str -> list Change.
Variable diffWordsWithSpace : str -> str -> list Change.
Hypothesis words : wordContract diffWordsWithSpace.

(** A pair of lines that are both empty or both non-empty shows the old
    line on the left and the new line on the right. *)
Lemma processLine_texts (oldLine newLine : str) :
  isEmpty oldLine = isEmpty newLine ->
  concat (map spanText
            (lineSpans diffWordsWithSpace oldLine newLine true false))
  = oldLine
  /\ concat (map spanText
               (lineSpans diffWordsWithSpace oldLine newLine false true))
     = newLine.
Proof.
  intro E. destruct oldLine as [|c oldLine].
  - destruct newLine; [|discriminate E]. split; reflexivity.
  - destruct newLine as [|d newLine]; [discriminate E|].
    destruct (words (c :: oldLine) (d :: newLine)) as (Hx & Ho & Hn).
    destruct (lineSpans_texts diffWordsWithSpace (c :: oldLine) (d :: newLine))
      as [-> ->]; solve [discriminate | assumption | now split].
Qed.

Lemma balancedLines_texts (oldLines newLines : list str) :
  balancedLines oldLines newLines = true ->
  map (fun i =>
         concat (map spanText
                   (lineSpans diffWordsWithSpace
                      (nth i oldLines []) (nth i newLines []) true false)))
    (seq 0 (Nat.max (length oldLines) (length newLines)))
  = oldLines
  /\ map (fun i =>
            concat (map spanText
                      (lineSpans diffWordsWithSpace
                         (nth i oldLines []) (nth i newLines []) false true)))
       (seq 0 (Nat.max (length oldLines) (length newLines)))
     = newLines.
Proof.
  unfold balancedLines. intros [Hlen Hall]%Bool.andb_true_iff.
  apply Nat.eqb_eq in Hlen. rewrite <- Hlen, Nat.max_id.
  rewrite forallb_forall in Hall.
  split.
  - etransitivity; [|exact (map_nth_seq oldLines)]. apply map_ext_in.
    intros i Hi. apply processLine_texts, eqb_prop, Hall, Hi.
  - etransitivity; [|exact (map_nth_seq newLines)]. rewrite <- Hlen.
    apply map_ext_in.
    intros i Hi. apply processLine_texts, eqb_prop, Hall, Hi.
Qed.

Lemma emitPart_texts (st : Emit) (part : Processed) :
  balancedPart part = true ->
  contentTexts (leftRows (emitPart diffWordsWithSpace st part))
  = contentTexts (leftRows st) ++ leftLines part
  /\ contentTexts (rightRows (emitPart diffWordsWithSpace st part))
     = contentTexts (rightRows st) ++ rightLines part.
Proof.
  intro Hb. destruct part as [oldValue newValue|part]; cbn [emitPart leftLines rightLines].
  - rewrite emitModified_fold. cbn [leftRows rightRows].
    rewrite !contentTexts_app.
    rewrite (contentTexts_content ClsModified (fun i => leftNumber st + i)
               (fun i => lineSpans diffWordsWithSpace
                           (nth i (splitLines oldValue) [])
                           (nth i (splitLines newValue) []) true false)).
    rewrite (contentTexts_content ClsModified (fun i => rightNumber st + i)
               (fun i => lineSpans diffWordsWithSpace
                           (nth i (splitLines oldValue) [])
                           (nth i (splitLines newValue) []) false true)).
    destruct (balancedLines_texts _ _ Hb) as [-> ->]. split; reflexivity.
  - destruct (added part); [|destruct (removed part)].
    + rewrite emitAdded_fold. cbn [leftRows rightRows].
      rewrite !contentTexts_app, contentTexts_placeholders, app_nil_r.
      now rewrite (contentTexts_plain ClsAdded (fun i => rightNumber st + i)).
    + rewrite emitRemoved_fold. cbn [leftRows rightRows].
      rewrite !contentTexts_app, contentTexts_placeholders, app_nil_r.
      now rewrite (contentTexts_plain ClsRemoved (fun i => leftNumber st + i)).
    + rewrite emitUnchanged_fold. cbn [leftRows rightRows].
      rewrite !contentTexts_app.
      rewrite (contentTexts_plain ClsUnchanged (fun i => leftNumber st + i)).
      now rewrite (contentTexts_plain ClsUnchanged (fun i => rightNumber st + i)).
Qed.

Lemma emitParts_texts (parts : list Processed) (st : Emit) :
  forallb balancedPart parts = true ->
  contentTexts (leftRows (fold_left (emitPart diffWordsWithSpace) parts st))
  = contentTexts (leftRows st) ++ flat_map leftLines parts
  /\ contentTexts (rightRows (fold_left (emitPart diffWordsWithSpace) parts st))
     = contentTexts (rightRows st) ++ flat_map rightLines parts.
Proof.
  revert st. induction parts as [|part parts IH]; intros st Hb.
  - cbn. now rewrite !app_nil_r.
  - cbn [forallb] in Hb. apply Bool.andb_true_iff in Hb as [Hpart Hparts].
    cbn [fold_left flat_map].
    destruct (IH (emitPart diffWordsWithSpace st part) Hparts) as [-> ->].
    destruct (emitPart_texts st part Hpart) as [-> ->].
    now rewrite <- !app_assoc.
Qed.

End Reconstruction.

(** The lines of the processed elements are the lines of the script's
    elements, column by column. *)
Lemma greedyPass_lines (script : list Change) :
  forallb exclusiveFlags script = true ->
  flat_map leftLines (greedyPass script) = flat_map splitLines (oldValues script)
  /\ flat_map rightLines (greedyPass script) = flat_map splitLines (newValues script).
Proof.
  unfold oldValues, newValues.
  induction script as [|a|a b script IH1 IH2] using cursor_ind; intro Hx.
  - split; reflexivity.
  - cbn [forallb] in Hx. destruct a as [v [|] [|]]; try discriminate Hx;
      cbn; rewrite ?app_nil_r; split; reflexivity.
  - rewrite greedyPass_two.
    assert (Hb : forallb exclusiveFlags (b :: script) = true)
      by (cbn [forallb] in *; apply Bool.andb_true_iff in Hx; tauto).
    assert (Hs : forallb exclusiveFlags script = true)
      by (cbn [forallb] in *; apply Bool.andb_true_iff in Hb; tauto).
    assert (Ha : exclusiveFlags a = true)
      by (cbn [forallb] in *; apply Bool.andb_true_iff in Hx; tauto).
    assert (Hb' : exclusiveFlags b = true)
      by (cbn [forallb] in *; apply Bool.andb_true_iff in Hb; tauto).
    destruct (removed a && added b) eqn:E.
    + apply Bool.andb_true_iff in E as [Er Ea].
      destruct (IH1 Hs) as [IHl IHr].
      destruct a as [va aa ra], b as [vb ab rb]. cbn in Er, Ea, Ha, Hb'. subst ra ab.
      destruct aa; [discriminate Ha|]. destruct rb; [discriminate Hb'|].
      cbn [flat_map leftLines rightLines filter added removed negb map value].
      now rewrite IHl, IHr.
    + destruct (IH2 Hb) as [IHl IHr].
      cbn [flat_map leftLines rightLines]. rewrite IHl, IHr.
      destruct a as [va [|] [|]]; try discriminate Ha;
        cbn [filter added removed negb map value flat_map app];
        rewrite ?app_nil_r; split; reflexivity.
Qed.

(** ** Reconstruction of the two documents *)

Lemma str_eqb_eq (a b : str) : str_eqb a b = true -> a = b.
Proof.
  revert b. induction a as [|x a IH]; intros [|y b] H; try discriminate H.
  - reflexivity.
  - cbn in H. apply Bool.andb_true_iff in H as [Hxy Hab].
    apply Ascii.eqb_eq in Hxy. f_equal; auto.
Qed.

Lemma wholeTextDiff_contract : wordContract wholeTextDiff.
Proof.
  intros a b. unfold wholeTextDiff.
  destruct (str_eqb a b) eqn:E.
  - apply str_eqb_eq in E. subst b. destruct a; repeat split; cbn;
      now rewrite ?app_nil_r.
  - destruct a, b; repeat split; cbn; now rewrite ?app_nil_r.
Qed.

Section Documents.

Variable diffLines : str -> str -> list Change.
Variable diffWordsWithSpace : str -> str -> list Change.

Lemma alignRows_texts (script : list Change) :
  wordContract diffWordsWithSpace ->
  forallb exclusiveFlags script = true ->
  wholeLines (oldValues script) = true ->
  wholeLines (newValues script) = true ->
  forallb balancedPart (findModifiedBlocks script) = true ->
  joinLines (contentTexts (leftRows (alignRows diffWordsWithSpace script)))
  = chomp (oldText script)
  /\ joinLines (contentTexts (rightRows (alignRows diffWordsWithSpace script)))
     = chomp (newText script).
Proof.
  intros Hw Hx Hold Hnew Hb. unfold alignRows.
  destruct (emitParts_texts diffWordsWithSpace Hw _ emitStart Hb) as [-> ->].
  cbn [emitStart leftRows rightRows contentTexts filter map app].
  rewrite findModifiedBlocks_greedyPass.
  destruct (greedyPass_lines script Hx) as [-> ->].
  rewrite (joinLines_splitLines _ Hold), (joinLines_splitLines _ Hnew).
  split; reflexivity.
Qed.

(** C1, as amended.  Let the line diff of the two normalized texts keep its
    flags exclusive, spell the first text with its elements that are not
    added and the second with those that are not removed, and be made of
    whole lines in each column; let the word diff meet its contract; and
    let every modified block pair its lines one to one, an empty line only
    with an empty line.  Then the texts of the content rows of the left
    column, joined by line feeds, spell the normalized document 1 without
    its final line feed, and those of the right column the normalized
    document 2 without its final line feed. *)
Theorem reconstruction_up_to_final_newline
    (ignoreWhitespace ignoreCase : bool) (file1Content file2Content : str) :
  wordContract diffWordsWithSpace ->
  forallb exclusiveFlags
    (diffLines (normalize ignoreWhitespace ignoreCase file1Content)
               (normalize ignoreWhitespace ignoreCase file2Content)) = true ->
  oldText
    (diffLines (normalize ignoreWhitespace ignoreCase file1Content)
               (normalize ignoreWhitespace ignoreCase file2Content))
  = normalize ignoreWhitespace ignoreCase file1Content ->
  newText
    (diffLines (normalize ignoreWhitespace ignoreCase file1Content)
               (normalize ignoreWhitespace ignoreCase file2Content))
  = normalize ignoreWhitespace ignoreCase file2Content ->
  wholeLines
    (oldValues
       (diffLines (normalize ignoreWhitespace ignoreCase file1Content)
                  (normalize ignoreWhitespace ignoreCase file2Content))) = true ->
  wholeLines
    (newValues
       (diffLines (normalize ignoreWhitespace ignoreCase file1Content)
                  (normalize ignoreWhitespace ignoreCase file2Content))) = true ->
  forallb balancedPart
    (findModifiedBlocks
       (diffLines (normalize ignoreWhitespace ignoreCase file1Content)
                  (normalize ignoreWhitespace ignoreCase file2Content))) = true ->
  joinLines
    (contentTexts
       (leftRows (compareRows diffLines diffWordsWithSpace
                     ignoreWhitespace ignoreCase file1Content file2Content)))
  = chomp (normalize ignoreWhitespace ignoreCase file1Content)
  /\ joinLines
       (contentTexts
          (rightRows (compareRows diffLines diffWordsWithSpace
                        ignoreWhitespace ignoreCase file1Content file2Content)))
     = chomp (normalize ignoreWhitespace ignoreCase file2Content).
Proof.
  intros Hw Hx Ho Hn Hold Hnew Hb. unfold compareRows.
  destruct (alignRows_texts _ Hw Hx Hold Hnew Hb) as [-> ->].
  now rewrite Ho, Hn.
Qed.

End Documents.

Lemma reconstruction_up_to_final_newline_witness :
  joinLines
    (contentTexts
       (leftRows (compareRows wholeTextDiff wholeTextDiff
                     false false text_a_nl text_z_nl)))
  = lit "a"
  /\ joinLines
       (contentTexts
          (rightRows (compareRows wholeTextDiff wholeTextDiff
                        false false text_a_nl text_z_nl)))
     = lit "z".
Proof.
  apply (reconstruction_up_to_final_newline wholeTextDiff wholeTextDiff
           false false text_a_nl text_z_nl wholeTextDiff_contract);
    reflexivity.
Defined.

(** C1 as stated fails.  The document "a", line feed, compared with
    itself: the line diff is one unchanged element, the left column is the
    single row "a", and its text is not the document, whose final line feed
    is lost. *)
Lemma reconstruction_counterexample :
  wholeTextDiff text_a_nl text_a_nl = [Unchanged text_a_nl]
  /\ leftRows (compareRows wholeTextDiff wholeTextDiff
                  false false text_a_nl text_a_nl)
     = [Content ClsUnchanged 1 [UnchangedSpan (lit "a")]]
  /\ joinLines
       (contentTexts
          (leftRows (compareRows wholeTextDiff wholeTextDiff
                        false false text_a_nl text_a_nl)))
     <> normalize false false text_a_nl.
Proof. repeat split. discriminate. Qed.

(** A block of two old lines and one new line: the second row of the right
    column shows the old line "y", which document 2 does not contain. *)
Lemma unbalanced_block_columns :
  wholeTextDiff text_x_y_nl text_z_nl = [Removed text_x_y_nl; Added text_z_nl]
  /\ contentTexts
       (leftRows (compareRows wholeTextDiff wholeTextDiff
                     false false text_x_y_nl text_z_nl))
     = [lit "x"; lit "y"]
  /\ contentTexts
       (rightRows (compareRows wholeTextDiff wholeTextDiff
                     false false text_x_y_nl text_z_nl))
     = [lit "z"; lit "y"].
Proof. repeat split. Qed.

(** ** Examples *)

Example normalize_both_options :
  normalize true true (lit "Hello" ++ [space; nl; space] ++ lit "World")
  = lit "hello world".
Proof. reflexivity. Qed.

Example normalize_case_only :
  normalize false true (lit "Hello" ++ nl :: lit "World")
  = lit "hello" ++ nl :: lit "world".
Proof. reflexivity. Qed.

Example splitLines_final_newline :
  splitLines (lit "a" ++ nl :: lit "b" ++ [nl]) = [lit "a"; lit "b"]
  /\ splitLines (lit "a" ++ nl :: lit "b") = [lit "a"; lit "b"]
  /\ splitLines [nl] = [[]]
  /\ splitLines [] = [].
Proof. repeat split. Qed.

Example findModifiedBlocks_run (a b c d : str) :
  findModifiedBlocks [Removed a; Removed b; Added c; Added d]
  = [Regular (Removed a); Modified b c; Regular (Added d)].
Proof. reflexivity. Qed.

Example escapeHtml_markup :
  _escapeHtml (lit "<b>Tom & 'Jerry'</b>")
  = lit "&lt;b&gt;Tom &amp; &#039;Jerry&#039;&lt;/b&gt;".
Proof. reflexivity. Qed.

(** One changed line: one pair of rows of class modified. *)
Example adjacent_modification :
  compareRows wholeTextDiff wholeTextDiff false false (lit "x" ++ [nl]) (lit "y" ++ [nl])
  = mkEmit [Content ClsModified 1 [RemovedWord (lit "x")]]
           [Content ClsModified 1 [AddedWord (lit "y")]] 2 2.
Proof. reflexivity. Qed.

(** A document compared with itself: unchanged rows only. *)
Example same_document :
  compareRows wholeTextDiff wholeTextDiff false false text_a_b text_a_b
  = mkEmit [Content ClsUnchanged 1 [UnchangedSpan (lit "a")];
            Content ClsUnchanged 2 [UnchangedSpan (lit "b")]]
           [Content ClsUnchanged 1 [UnchangedSpan (lit "a")];
            Content ClsUnchanged 2 [UnchangedSpan (lit "b")]] 3 3.
Proof. reflexivity. Qed.

Example ignoreCase_hello :
  compareRows wholeTextDiff wholeTextDiff false true (lit "Hello") (lit "hello")
  = mkEmit [Content ClsUnchanged 1 [UnchangedSpan (lit "hello")]]
           [Content ClsUnchanged 1 [UnchangedSpan (lit "hello")]] 2 2.
Proof. reflexivity. Qed.

(** * Further properties *)

(** ** Escaping *)

Lemma replaceUnit_app (c : ascii) (by_ a b : str) :
  replaceUnit c by_ (a ++ b) = replaceUnit c by_ a ++ replaceUnit c by_ b.
Proof. apply flat_map_app. Qed.

Lemma escapeHtml_app (a b : str) :
  _escapeHtml (a ++ b) = _escapeHtml a ++ _escapeHtml b.
Proof. unfold _escapeHtml. now rewrite !replaceUnit_app. Qed.

Lemma escapeHtml_unit (c : ascii) : _escapeHtml [c] = escapeUnit c.
Proof. each_unit c. Qed.

Lemma escapeHtml_cons (c : ascii) (t : str) :
  _escapeHtml (c :: t) = escapeUnit c ++ _escapeHtml t.
Proof.
  change (c :: t) with ([c] ++ t). now rewrite escapeHtml_app, escapeHtml_unit.
Qed.

Lemma escapeHtml_flat_map (t : str) : _escapeHtml t = flat_map escapeUnit t.
Proof.
  induction t as [|c t IH]; [reflexivity|].
  rewrite escapeHtml_cons, IH. reflexivity.
Qed.

Lemma escapeUnit_no_markup (c : ascii) :
  forallb (fun x => negb (isMarkupUnit x)) (escapeUnit c) = true.
Proof. each_unit c. Qed.

Lemma unitKey_escapeUnit (c : ascii) (rest : str) :
  unitKey (escapeUnit c ++ rest) = Some c.
Proof. destruct c as [[|] [|] [|] [|] [|] [|] [|] [|]]; reflexivity. Qed.

Lemma escapeHtml_cons_inv (c d : ascii) (a b : str) :
  escapeUnit c ++ a = escapeUnit d ++ b -> c = d /\ a = b.
Proof.
  intro H. assert (c = d) as ->.
  { apply (f_equal unitKey) in H. rewrite !unitKey_escapeUnit in H. congruence. }
  split; [reflexivity|]. now apply app_inv_head in H.
Qed.

Lemma escapeHtml_injective_aux (a : str) :
  forall b, _escapeHtml a = _escapeHtml b -> a = b.
Proof.
  induction a as [|c a IH]; intros [|d b] H.
  - reflexivity.
  - rewrite escapeHtml_cons in H. apply (f_equal unitKey) in H.
    rewrite unitKey_escapeUnit in H. discriminate H.
  - rewrite escapeHtml_cons in H. apply (f_equal unitKey) in H.
    rewrite unitKey_escapeUnit in H. discriminate H.
  - rewrite !escapeHtml_cons in H. apply escapeHtml_cons_inv in H as [-> H].
    f_equal. now apply IH.
Qed.

(** X1.  The five replacements of [_escapeHtml], made one after the other,
    act as one pass over the text: each ampersand, angle bracket, double
    quote and apostrophe becomes its entity, every other code unit is
    kept, and nothing is escaped twice; so escaping goes through
    concatenation. *)
Theorem escapeHtml_one_pass :
  forall a b : str,
    _escapeHtml a = flat_map escapeUnit a
    /\ _escapeHtml (a ++ b) = _escapeHtml a ++ _escapeHtml b.
Proof. intros a b. split; [apply escapeHtml_flat_map|apply escapeHtml_app]. Qed.

(** X2.  An escaped text holds no angle bracket, no double quote and no
    apostrophe. *)
Theorem escapeHtml_no_markup :
  forall t : str, forallb (fun x => negb (isMarkupUnit x)) (_escapeHtml t) = true.
Proof.
  intro t. rewrite escapeHtml_flat_map.
  induction t as [|c t IH]; [reflexivity|].
  cbn [flat_map]. rewrite forallb_app, IH, escapeUnit_no_markup. reflexivity.
Qed.

(** X3.  Escaping loses nothing: two texts with the same escaped form are
    the same text. *)
Theorem escapeHtml_injective (a b : str) :
  _escapeHtml a = _escapeHtml b -> a = b.
Proof. apply escapeHtml_injective_aux. Qed.

Lemma escapeHtml_injective_witness : lit "a<b" = lit "a<b".
Proof. apply (escapeHtml_injective (lit "a<b") (lit "a<b")). reflexivity. Defined.

(** ** Line numbers *)

Lemma rowNumbers_app (rows rows' : list Row) :
  rowNumbers (rows ++ rows') = rowNumbers rows ++ rowNumbers rows'.
Proof. apply flat_map_app. Qed.

Lemma rowNumbers_placeholders (n : nat) : rowNumbers (repeat Placeholder n) = [].
Proof. induction n as [|n IH]; [reflexivity|exact IH]. Qed.

Lemma rowNumbers_content (cls : RowClass) (first : nat)
    (spans : nat -> list WordSpan) (a n : nat) :
  rowNumbers (map (fun i => Content cls (first + i) (spans i)) (seq a n))
  = seq (first + a) n.
Proof.
  revert a. induction n as [|n IH]; intro a; [reflexivity|].
  cbn [seq map]. change (rowNumbers (?r :: ?rows)) with (rowNumbers [r] ++ rowNumbers rows).
  rewrite IH. cbn. now rewrite Nat.add_succ_r.
Qed.

Lemma rowNumbers_length (rows : list Row) :
  length (rowNumbers rows) = length (contentTexts rows).
Proof.
  induction rows as [|[|cls n spans] rows IH]; [reflexivity|exact IH|].
  unfold contentTexts in *. cbn. now rewrite <- IH.
Qed.

Section Numbers.

Variable diffLines : str -> str -> list Change.
Variable diffWordsWithSpace : str -> str -> list Change.

(** What one processed element adds to the numbers of the two columns. *)
Lemma emitPart_numbers (st : Emit) (part : Processed) :
  exists n m,
    rowNumbers (leftRows (emitPart diffWordsWithSpace st part))
    = rowNumbers (leftRows st) ++ seq (leftNumber st) n
    /\ leftNumber (emitPart diffWordsWithSpace st part) = leftNumber st + n
    /\ rowNumbers (rightRows (emitPart diffWordsWithSpace st part))
       = rowNumbers (rightRows st) ++ seq (rightNumber st) m
    /\ rightNumber (emitPart diffWordsWithSpace st part) = rightNumber st + m.
Proof.
  destruct part as [oldValue newValue|part]; cbn [emitPart].
  - rewrite emitModified_fold. cbn [leftRows rightRows leftNumber rightNumber].
    rewrite !rowNumbers_app.
    rewrite (rowNumbers_content ClsModified (leftNumber st)).
    rewrite (rowNumbers_content ClsModified (rightNumber st)).
    rewrite !Nat.add_0_r. do 2 eexists. repeat split; reflexivity.
  - destruct (added part); [|destruct (removed part)].
    + rewrite emitAdded_fold. cbn [leftRows rightRows leftNumber rightNumber].
      rewrite !rowNumbers_app, rowNumbers_placeholders.
      rewrite (rowNumbers_content ClsAdded (rightNumber st)), Nat.add_0_r.
      exists 0, (length (splitLines (value part))).
      cbn [seq]. rewrite ?app_nil_r, ?Nat.add_0_r. repeat split; reflexivity.
    + rewrite emitRemoved_fold. cbn [leftRows rightRows leftNumber rightNumber].
      rewrite !rowNumbers_app, rowNumbers_placeholders.
      rewrite (rowNumbers_content ClsRemoved (leftNumber st)), Nat.add_0_r.
      exists (length (splitLines (value part))), 0.
      cbn [seq]. rewrite ?app_nil_r, ?Nat.add_0_r. repeat split; reflexivity.
    + rewrite emitUnchanged_fold. cbn [leftRows rightRows leftNumber rightNumber].
      rewrite !rowNumbers_app.
      rewrite (rowNumbers_content ClsUnchanged (leftNumber st)).
      rewrite (rowNumbers_content ClsUnchanged (rightNumber st)).
      rewrite !Nat.add_0_r. do 2 eexists. repeat split; reflexivity.
Qed.

Lemma emitParts_numbers (parts : list Processed) (st : Emit) :
  rowNumbers (leftRows st) = seq 1 (leftNumber st - 1) ->
  1 <= leftNumber st ->
  rowNumbers (rightRows st) = seq 1 (rightNumber st - 1) ->
  1 <= rightNumber st ->
  let st' := fold_left (emitPart diffWordsWithSpace) parts st in
  rowNumbers (leftRows st') = seq 1 (leftNumber st' - 1)
  /\ 1 <= leftNumber st'
  /\ rowNumbers (rightRows st') = seq 1 (rightNumber st' - 1)
  /\ 1 <= rightNumber st'.
Proof.
  revert st. induction parts as [|part parts IH]; intros st Hl Hl1 Hr Hr1;
    [cbn; auto|].
  cbn [fold_left].
  destruct (emitPart_numbers st part) as (n & m & El & Nl & Er & Nr).
  apply IH; try lia.
  - rewrite El, Nl, Hl.
    replace (leftNumber st + n - 1) with ((leftNumber st - 1) + n) by lia.
    rewrite seq_app. do 2 f_equal. lia.
  - rewrite Er, Nr, Hr.
    replace (rightNumber st + m - 1) with ((rightNumber st - 1) + m) by lia.
    rewrite seq_app. do 2 f_equal. lia.
Qed.

(** X4.  In each column the content rows are numbered 1, 2, 3, ... without
    a gap, placeholders having no number, and each counter ends one above
    the number of content rows of its column. *)
Theorem line_numbers_consecutive :
  forall (ignoreWhitespace ignoreCase : bool) (file1Content file2Content : str),
    rowNumbers (leftRows (compareRows diffLines diffWordsWithSpace
                            ignoreWhitespace ignoreCase file1Content file2Content))
    = seq 1 (length (contentTexts
                       (leftRows (compareRows diffLines diffWordsWithSpace
                                    ignoreWhitespace ignoreCase
                                    file1Content file2Content))))
    /\ rowNumbers (rightRows (compareRows diffLines diffWordsWithSpace
                                ignoreWhitespace ignoreCase file1Content file2Content))
       = seq 1 (length (contentTexts
                          (rightRows (compareRows diffLines diffWordsWithSpace
                                        ignoreWhitespace ignoreCase
                                        file1Content file2Content))))
    /\ leftNumber (compareRows diffLines diffWordsWithSpace
                     ignoreWhitespace ignoreCase file1Content file2Content)
       = S (length (contentTexts
                      (leftRows (compareRows diffLines diffWordsWithSpace
                                   ignoreWhitespace ignoreCase
                                   file1Content file2Content))))
    /\ rightNumber (compareRows diffLines diffWordsWithSpace
                      ignoreWhitespace ignoreCase file1Content file2Content)
       = S (length (contentTexts
                      (rightRows (compareRows diffLines diffWordsWithSpace
                                    ignoreWhitespace ignoreCase
                                    file1Content file2Content)))).
Proof.
  intros iw ic f1 f2. unfold compareRows, alignRows.
  destruct (emitParts_numbers
              (findModifiedBlocks (diffLines (normalize iw ic f1) (normalize iw ic f2)))
              emitStart eq_refl (le_n 1) eq_refl (le_n 1)) as (Hl & Hl1 & Hr & Hr1).
  set (e := fold_left _ _ _) in *.
  assert (Ll : length (contentTexts (leftRows e)) = leftNumber e - 1)
    by (now rewrite <- rowNumbers_length, Hl, length_seq).
  assert (Lr : length (contentTexts (rightRows e)) = rightNumber e - 1)
    by (now rewrite <- rowNumbers_length, Hr, length_seq).
  rewrite Ll, Lr. repeat split; auto; lia.
Qed.

End Numbers.

(** ** Rows that face each other *)

Section Facing.

Variable diffLines : str -> str -> list Change.
Variable diffWordsWithSpace : str -> str -> list Change.

Lemma emitPart_facing (st : Emit) (part : Processed) :
  exists ls rs,
    leftRows (emitPart diffWordsWithSpace st part) = leftRows st ++ ls
    /\ rightRows (emitPart diffWordsWithSpace st part) = rightRows st ++ rs
    /\ Forall2 facing ls rs.
Proof.
  destruct part as [oldValue newValue|part]; cbn [emitPart].
  - rewrite emitModified_fold. do 2 eexists.
    repeat split. apply Forall2_map_seq. intro i. exact I.
  - destruct (added part); [|destruct (removed part)].
    + rewrite emitAdded_fold. do 2 eexists. repeat split.
      rewrite (repeat_map_seq _ _ 0). apply Forall2_map_seq.
      intro i. cbn. eauto.
    + rewrite emitRemoved_fold. do 2 eexists. repeat split.
      rewrite (repeat_map_seq _ _ 0). apply Forall2_map_seq.
      intro i. cbn. eauto.
    + rewrite emitUnchanged_fold. do 2 eexists. repeat split.
      apply Forall2_map_seq. intro i. cbn. eauto.
Qed.

Lemma emitParts_facing (parts : list Processed) (st : Emit) :
  Forall2 facing (leftRows st) (rightRows st) ->
  Forall2 facing
    (leftRows (fold_left (emitPart diffWordsWithSpace) parts st))
    (rightRows (fold_left (emitPart diffWordsWithSpace) parts st)).
Proof.
  revert st. induction parts as [|part parts IH]; intros st Hst; [exact Hst|].
  cbn [fold_left]. apply IH.
  destruct (emitPart_facing st part) as (ls & rs & -> & -> & H).
  now apply Forall2_app.
Qed.

(** X5.  At every index the two rows face each other in one of four ways:
    two unchanged rows with the same content, a single plain span; two
    modified rows; a removed row, its line as a single plain span, opposite
    a placeholder; a placeholder opposite an added row, its line as a single
    plain span. *)
Theorem rows_face_each_other :
  forall (ignoreWhitespace ignoreCase : bool) (file1Content file2Content : str),
    Forall2 facing
      (leftRows (compareRows diffLines diffWordsWithSpace
                   ignoreWhitespace ignoreCase file1Content file2Content))
      (rightRows (compareRows diffLines diffWordsWithSpace
                    ignoreWhitespace ignoreCase file1Content file2Content)).
Proof.
  intros. unfold compareRows, alignRows. apply emitParts_facing. constructor.
Qed.

(** ** A script without changes *)

Lemma greedyPass_plain (script : list Change) :
  forallb plainChange script = true ->
  greedyPass script = map Regular script.
Proof.
  induction script as [|a|a b script IH1 IH2] using cursor_ind; intro H;
    [reflexivity|reflexivity|].
  rewrite greedyPass_two.
  cbn [forallb] in H. apply Bool.andb_true_iff in H as [Ha H].
  unfold plainChange in Ha. apply Bool.andb_true_iff in Ha as [_ Ha].
  apply Bool.negb_true_iff in Ha. rewrite Ha. cbn [andb map].
  f_equal. now apply IH2.
Qed.

Lemma emitParts_plain (script : list Change) (st : Emit) :
  forallb plainChange script = true ->
  leftRows st = rightRows st ->
  leftNumber st = rightNumber st ->
  filter isDiffRow (leftRows st) = [] ->
  let st' := fold_left (emitPart diffWordsWithSpace) (map Regular script) st in
  leftRows st' = rightRows st'
  /\ filter isDiffRow (leftRows st') = []
  /\ contentTexts (leftRows st')
     = contentTexts (leftRows st) ++ flat_map splitLines (map value script).
Proof.
  revert st. induction script as [|c script IH]; intros st H Hrows Hnum Hdiff.
  - cbn. now rewrite app_nil_r.
  - cbn [forallb] in H. apply Bool.andb_true_iff in H as [Hc H].
    unfold plainChange in Hc. apply Bool.andb_true_iff in Hc as [Ha Hr].
    apply Bool.negb_true_iff in Ha, Hr.
    cbn [map fold_left flat_map]. cbn [emitPart]. rewrite Ha, Hr.
    rewrite emitUnchanged_fold.
    set (st1 := mkEmit _ _ _ _).
    destruct (IH st1 H) as (E & D & T).
    + subst st1. cbn [leftRows rightRows]. now rewrite Hrows, Hnum.
    + subst st1. cbn [leftNumber rightNumber]. now rewrite Hnum.
    + subst st1. cbn [leftRows]. rewrite filter_app, Hdiff. cbn [app].
      generalize (seq 0 (length (splitLines (value c)))) as indices.
      induction indices as [|i indices IHi]; [reflexivity|exact IHi].
    + split; [exact E|split; [exact D|]].
      rewrite T. subst st1. cbn [leftRows].
      rewrite contentTexts_app.
      rewrite (contentTexts_plain ClsUnchanged (fun i => leftNumber st + i)).
      now rewrite <- app_assoc.
Qed.

(** X6.  When the line diff of the two normalized texts has neither an
    added nor a removed element, the two columns are the same list of rows,
    no row is of class added, removed or modified (so the page has no diff
    to navigate to and no placeholder), and the rows are the lines of the
    elements in order. *)
Theorem no_change_same_columns
    (ignoreWhitespace ignoreCase : bool) (file1Content file2Content : str) :
  forallb plainChange
    (diffLines (normalize ignoreWhitespace ignoreCase file1Content)
               (normalize ignoreWhitespace ignoreCase file2Content)) = true ->
  leftRows (compareRows diffLines diffWordsWithSpace
              ignoreWhitespace ignoreCase file1Content file2Content)
  = rightRows (compareRows diffLines diffWordsWithSpace
                 ignoreWhitespace ignoreCase file1Content file2Content)
  /\ diffElements (compareRows diffLines diffWordsWithSpace
                     ignoreWhitespace ignoreCase file1Content file2Content)
     = []
  /\ filter isPlaceholder
       (leftRows (compareRows diffLines diffWordsWithSpace
                    ignoreWhitespace ignoreCase file1Content file2Content))
     = []
  /\ contentTexts
       (leftRows (compareRows diffLines diffWordsWithSpace
                    ignoreWhitespace ignoreCase file1Content file2Content))
     = flat_map splitLines
         (map value
            (diffLines (normalize ignoreWhitespace ignoreCase file1Content)
                       (normalize ignoreWhitespace ignoreCase file2Content))).
Proof.
  intro H. unfold compareRows, alignRows, diffElements.
  rewrite findModifiedBlocks_greedyPass, (greedyPass_plain _ H).
  destruct (emitParts_plain _ emitStart H eq_refl eq_refl eq_refl) as (E & D & T).
  pose proof (emitParts_facing
                (map Regular
                   (diffLines (normalize ignoreWhitespace ignoreCase file1Content)
                              (normalize ignoreWhitespace ignoreCase file2Content)))
                emitStart (Forall2_nil _)) as F.
  set (e := fold_left _ _ _) in *.
  split; [exact E|]. split; [now rewrite filter_app, <- E, D|].
  split; [|exact T].
  rewrite <- E in F. clear - F.
  induction (leftRows e) as [|r rows IH]; [reflexivity|].
  inversion F as [|? ? ? ? Hr Hrows]; subst.
  destruct r as [|[] n s]; cbn in Hr; try contradiction; cbn; now apply IH.
Qed.

End Facing.

Lemma no_change_same_columns_witness :
  leftRows (compareRows wholeTextDiff wholeTextDiff false false text_a_b text_a_b)
  = rightRows (compareRows wholeTextDiff wholeTextDiff false false text_a_b text_a_b)
  /\ diffElements (compareRows wholeTextDiff wholeTextDiff false false text_a_b text_a_b)
     = []
  /\ filter isPlaceholder
       (leftRows (compareRows wholeTextDiff wholeTextDiff false false
                    text_a_b text_a_b))
     = []
  /\ contentTexts
       (leftRows (compareRows wholeTextDiff wholeTextDiff false false
                    text_a_b text_a_b))
     = [lit "a"; lit "b"].
Proof.
  apply (no_change_same_columns wholeTextDiff wholeTextDiff false false
           text_a_b text_a_b).
  reflexivity.
Defined.

(** ** What modification detection keeps *)

Lemma greedyPass_unmerge (script : list Change) :
  forallb exclusiveFlags script = true ->
  flat_map unmerge (greedyPass script) = script.
Proof.
  induction script as [|a|a b script IH1 IH2] using cursor_ind; intro H;
    [reflexivity|reflexivity|].
  rewrite greedyPass_two.
  cbn [forallb] in H. apply Bool.andb_true_iff in H as [Ha H].
  pose proof H as Hb. cbn [forallb] in Hb. apply Bool.andb_true_iff in Hb as [Hb Hs].
  destruct (removed a && added b) eqn:E.
  - apply Bool.andb_true_iff in E as [Er Ea].
    destruct a as [va aa ra], b as [vb ab rb]. cbn in Er, Ea, Ha, Hb. subst ra ab.
    destruct aa; [discriminate Ha|]. destruct rb; [discriminate Hb|].
    cbn [flat_map unmerge value app]. now rewrite (IH1 Hs).
  - cbn [flat_map unmerge app]. now rewrite (IH2 H).
Qed.

Lemma greedyPass_head (b : Change) (script : list Change) :
  exists more,
    greedyPass (b :: script) = Regular b :: more
    \/ exists o n, greedyPass (b :: script) = Modified o n :: more.
Proof.
  destruct script as [|c script]; [exists []; now left|].
  rewrite greedyPass_two. destruct (removed b && added c); eauto.
Qed.

Lemma greedyPass_noUnmergedPair (script : list Change) :
  noUnmergedPair (greedyPass script) = true.
Proof.
  induction script as [|a|a b script IH1 IH2] using cursor_ind;
    [reflexivity|reflexivity|].
  rewrite greedyPass_two. destruct (removed a && added b) eqn:E.
  - cbn [noUnmergedPair]. exact IH1.
  - cbn [noUnmergedPair]. rewrite IH2, Bool.andb_true_r.
    destruct (greedyPass_head b script) as (more & [-> | (o & n & ->)]);
      [now rewrite E|reflexivity].
Qed.

Lemma greedyPass_length (script : list Change) :
  length script = length (greedyPass script) + modifiedCount (greedyPass script).
Proof.
  unfold modifiedCount.
  induction script as [|a|a b script IH1 IH2] using cursor_ind;
    [reflexivity|reflexivity|].
  rewrite greedyPass_two. destruct (removed a && added b).
  - cbn [length filter]. rewrite IH1. lia.
  - cbn [length filter] in *. rewrite IH2. lia.
Qed.

(** X7.  Modification detection loses nothing: when no element of the
    script is both added and removed, putting a removed and an added
    element back for every block gives the script again. *)
Theorem findModifiedBlocks_unmerge (script : list Change) :
  forallb exclusiveFlags script = true ->
  flat_map unmerge (findModifiedBlocks script) = script.
Proof. rewrite findModifiedBlocks_greedyPass. apply greedyPass_unmerge. Qed.

Lemma findModifiedBlocks_unmerge_witness :
  flat_map unmerge
    (findModifiedBlocks [Unchanged text_a_nl; Removed text_x_y_nl; Added text_z_nl])
  = [Unchanged text_a_nl; Removed text_x_y_nl; Added text_z_nl].
Proof.
  apply (findModifiedBlocks_unmerge
           [Unchanged text_a_nl; Removed text_x_y_nl; Added text_z_nl]).
  reflexivity.
Defined.

(** X8.  After modification detection no removed element kept as it is
    stands directly before an added element kept as it is, and every block
    stands for two elements of the script: the script is as long as the
    result plus the number of its blocks. *)
Theorem findModifiedBlocks_merges_every_pair :
  forall script : list Change,
    noUnmergedPair (findModifiedBlocks script) = true
    /\ length script
       = length (findModifiedBlocks script)
         + modifiedCount (findModifiedBlocks script).
Proof.
  intro script. rewrite findModifiedBlocks_greedyPass.
  split; [apply greedyPass_noUnmergedPair|apply greedyPass_length].
Qed.

(** ** Lines *)

Lemma splitLines_no_nl (v : str) :
  forallb (fun l => negb (existsb is_nl l)) (splitLines v) = true.
Proof.
  induction v as [|c v IH]; [reflexivity|].
  destruct (is_nl c) eqn:Hc.
  - rewrite (splitLines_cons_nl c v Hc). exact IH.
  - rewrite (splitLines_cons_other c v Hc).
    destruct (splitLines v) as [|l ls]; cbn [forallb existsb] in *.
    + now rewrite Hc.
    + now rewrite Hc.
Qed.

(** X9.  The lines a value is split into hold no line feed, and written
    one after the other, each followed by a line feed, they spell the value,
    with a line feed added at its end when it is not empty and has none. *)
Theorem splitLines_unlines :
  forall v : str,
    forallb (fun l => negb (existsb is_nl l)) (splitLines v) = true
    /\ unlines (splitLines v)
       = if isEmpty v || endsWithNl v then v else v ++ [nl].
Proof.
  intro v. split; [apply splitLines_no_nl|apply unlines_splitLines].
Qed.

(** ** What whitespace collapsing leaves *)

(** X10.  With [ignoreWhitespace] the text handed to the line diff has
    single spaces as its only whitespace, with or without [ignoreCase]: it
    holds no line feed, nor any other unit of the class [\s] than U+0020.
    Without [ignoreCase] it is not longer than the content of the file.
    [lowerCase] stands for the built-in [toLowerCase], which writes no
    whitespace and removes no unit between two spaces. *)
Theorem ignoreWhitespace_single_spaces :
  forall (codeUnit : Type) (isSpace : codeUnit -> bool) (spaceUnit : codeUnit)
         (lowerCase : list codeUnit -> list codeUnit),
    isSpace spaceUnit = true ->
    (forall t, replaceWhitespaceOver isSpace spaceUnit t = t ->
               replaceWhitespaceOver isSpace spaceUnit (lowerCase t)
               = lowerCase t) ->
    forall (ignoreCase : bool) (content : list codeUnit),
      singleSpacesOver isSpace spaceUnit
        (normalizeOver isSpace spaceUnit lowerCase true ignoreCase content)
      /\ (forall lineFeed : codeUnit,
            isSpace lineFeed = true -> lineFeed <> spaceUnit ->
            ~ In lineFeed
                (normalizeOver isSpace spaceUnit lowerCase true ignoreCase content))
      /\ length (normalizeOver isSpace spaceUnit lowerCase true false content)
         <= length content.
Proof.
  intros codeUnit isSpace spaceUnit lowerCase Hspace Hcollapsed ic content.
  pose proof (normalizeOver_singleSpaces codeUnit isSpace spaceUnit Hspace
                lowerCase Hcollapsed ic content) as S.
  split; [exact S|]. split.
  - intros lineFeed Hlf Hne Hin.
    exact (Hne (singleSpacesOver_In codeUnit isSpace spaceUnit _ S lineFeed Hin Hlf)).
  - apply replaceSpaceRunsOver_length.
Qed.

Lemma ignoreWhitespace_single_spaces_witness :
  singleSpacesOver jsWhitespace 32%N
    (normalizeOver jsWhitespace 32%N lowerAsciiAndDottedI true true
       [73; 9; 10; 304; 32; 32; 83]%N)
  /\ (forall lineFeed : N,
        jsWhitespace lineFeed = true -> lineFeed <> 32%N ->
        ~ In lineFeed
            (normalizeOver jsWhitespace 32%N lowerAsciiAndDottedI true true
               [73; 9; 10; 304; 32; 32; 83]%N))
  /\ length (normalizeOver jsWhitespace 32%N lowerAsciiAndDottedI true false
               [73; 9; 10; 304; 32; 32; 83]%N)
     <= length [73; 9; 10; 304; 32; 32; 83]%N.
Proof.
  apply (ignoreWhitespace_single_spaces N jsWhitespace 32%N lowerAsciiAndDottedI).
  - reflexivity.
  - exact lowerAsciiAndDottedI_collapsed.
Defined.

(** With [ignoreCase] the text can be longer than the content: U+0130 is
    one unit, its lower case two. *)
Example ignoreCase_can_lengthen :
  normalizeOver jsWhitespace 32%N lowerAsciiAndDottedI true true [304]%N
  = [105; 775]%N.
Proof. reflexivity. Qed.

(** ** Navigation between diffs *)

Lemma scrollToDiff_in_bounds (count : nat) (st : Nav) (index : Z) :
  (0 < count)%nat ->
  (0 <= currentDiffIndex (scrollToDiff count st index) < Z.of_nat count)%Z
  /\ scrolledTo (scrollToDiff count st index)
     = scrolledTo st ++ [currentDiffIndex (scrollToDiff count st index)].
Proof.
  intro H. unfold scrollToDiff.
  destruct (Nat.eqb_spec count 0) as [E|_]; [lia|].
  cbn [currentDiffIndex scrolledTo]. split; [|reflexivity].
  destruct (Z.ltb_spec index 0);
    destruct (Z.geb_spec (Z.of_nat count - 1) (Z.of_nat count));
    destruct (Z.geb_spec index (Z.of_nat count)); lia.
Qed.

Lemma navRun_snoc (count : nat) (clicks : list NavButton) (button : NavButton) :
  navRun count (clicks ++ [button]) = navClick count (navRun count clicks) button.
Proof. unfold navRun. now rewrite fold_left_app. Qed.

Lemma navRun_positive (count : nat) (clicks : list NavButton) :
  (0 < count)%nat ->
  (0 <= currentDiffIndex (navRun count clicks) < Z.of_nat count)%Z
  /\ Forall (fun i => (0 <= i < Z.of_nat count)%Z) (scrolledTo (navRun count clicks))
  /\ length (scrolledTo (navRun count clicks)) = S (length clicks).
Proof.
  intro H. induction clicks as [|button clicks IH] using rev_ind.
  - unfold navRun, navStart. cbn [fold_left].
    destruct (Nat.ltb_spec 0 count) as [_|]; [|lia].
    destruct (scrollToDiff_in_bounds count (mkNav (-1) []) 0 H) as [B ->].
    cbn [scrolledTo app length]. repeat split; try apply B. repeat constructor; apply B.
  - rewrite navRun_snoc. destruct IH as (B & F & L).
    assert (S : forall index,
               (0 <= currentDiffIndex (scrollToDiff count (navRun count clicks) index)
                < Z.of_nat count)%Z
               /\ Forall (fun i => (0 <= i < Z.of_nat count)%Z)
                    (scrolledTo (scrollToDiff count (navRun count clicks) index))
               /\ length (scrolledTo (scrollToDiff count (navRun count clicks) index))
                  = S (length (clicks ++ [button]))).
    { intro index.
      destruct (scrollToDiff_in_bounds count (navRun count clicks) index H) as [B' ->].
      split; [exact B'|]. split.
      - apply Forall_app. split; [exact F|]. repeat constructor; apply B'.
      - rewrite !length_app, L. cbn. lia. }
    destruct button; apply S.
Qed.

Lemma navRun_zero (clicks : list NavButton) : navRun 0 clicks = mkNav (-1) [].
Proof.
  induction clicks as [|button clicks IH] using rev_ind; [reflexivity|].
  rewrite navRun_snoc, IH. now destruct button.
Qed.

(** X13.  Whatever buttons are pressed, [currentDiffIndex] is an index of
    [diffElements] and so is every index scrolled to, one per press after
    the initial one, when there is a diff element; when there is none, the
    index stays -1 and nothing is scrolled to. *)
Theorem navigation_in_bounds :
  forall (count : nat) (clicks : list NavButton),
    match count with
    | 0 => navRun 0 clicks = mkNav (-1) []
    | S _ =>
        (0 <= currentDiffIndex (navRun count clicks) < Z.of_nat count)%Z
        /\ Forall (fun i => (0 <= i < Z.of_nat count)%Z)
             (scrolledTo (navRun count clicks))
        /\ length (scrolledTo (navRun count clicks)) = S (length clicks)
    end.
Proof.
  intros [|count] clicks; [apply navRun_zero|].
  apply navRun_positive. lia.
Qed.

(** X14.  On an index of [diffElements], Next then Previous, and Previous
    then Next, come back to the index: Next from the last element goes to
    the first, Previous from the first to the last. *)
Theorem navigation_next_previous (count : nat) (st : Nav) :
  (0 <= currentDiffIndex st < Z.of_nat count)%Z ->
  currentDiffIndex (navClick count (navClick count st NextDiff) PrevDiff)
  = currentDiffIndex st
  /\ currentDiffIndex (navClick count (navClick count st PrevDiff) NextDiff)
     = currentDiffIndex st
  /\ currentDiffIndex (navClick count st NextDiff)
     = (if (currentDiffIndex st =? Z.of_nat count - 1)%Z then 0
        else currentDiffIndex st + 1)%Z
  /\ currentDiffIndex (navClick count st PrevDiff)
     = (if (currentDiffIndex st =? 0)%Z then Z.of_nat count - 1
        else currentDiffIndex st - 1)%Z.
Proof.
  intro H. unfold navClick, scrollToDiff.
  destruct (Nat.eqb_spec count 0) as [E|_]; [lia|].
  cbn [currentDiffIndex].
  repeat match goal with
         | |- context [(?a <? ?b)%Z] => destruct (Z.ltb_spec a b)
         | |- context [(?a >=? ?b)%Z] => destruct (Z.geb_spec a b)
         | |- context [(?a =? ?b)%Z] => destruct (Z.eqb_spec a b)
         end; repeat split; lia.
Qed.

Lemma navigation_next_previous_witness :
  currentDiffIndex (navClick 3 (navClick 3 (mkNav 2 []) NextDiff) PrevDiff) = 2%Z
  /\ currentDiffIndex (navClick 3 (navClick 3 (mkNav 2 []) PrevDiff) NextDiff) = 2%Z
  /\ currentDiffIndex (navClick 3 (mkNav 2 []) NextDiff) = 0%Z
  /\ currentDiffIndex (navClick 3 (mkNav 2 []) PrevDiff) = 1%Z.
Proof.
  apply (navigation_next_previous 3 (mkNav 2 [])). cbn. lia.
Defined.

Lemma repeat_snoc {A : Type} (x : A) (k : nat) : repeat x (S k) = repeat x k ++ [x].
Proof. cbn [repeat]. apply repeat_cons. Qed.

(** X15.  From the page as loaded, [k] presses of Next select the diff
    element number [k mod count], and [k] presses of Previous the element
    number [(- k) mod count]: both buttons go round all the elements. *)
Theorem navigation_cycles (count k : nat) :
  (0 < count)%nat ->
  currentDiffIndex (navRun count (repeat NextDiff k))
  = (Z.of_nat k mod Z.of_nat count)%Z
  /\ currentDiffIndex (navRun count (repeat PrevDiff k))
     = ((- Z.of_nat k) mod Z.of_nat count)%Z.
Proof.
  intro H. induction k as [|k [IHn IHp]].
  - unfold navRun, navStart, scrollToDiff. cbn [repeat fold_left].
    destruct (Nat.ltb_spec 0 count) as [_|]; [|lia].
    destruct (Nat.eqb_spec count 0) as [E|_]; [lia|].
    cbn [currentDiffIndex]. rewrite !Z.mod_0_l by lia.
    destruct (Z.ltb_spec 0 0); [lia|].
    destruct (Z.geb_spec 0 (Z.of_nat count)); [lia|]. split; reflexivity.
  - rewrite !repeat_snoc, !navRun_snoc.
    assert (Bn := proj1 (navRun_positive count (repeat NextDiff k) H)).
    assert (Bp := proj1 (navRun_positive count (repeat PrevDiff k) H)).
    unfold navClick, scrollToDiff.
    destruct (Nat.eqb_spec count 0) as [E|_]; [lia|].
    cbn [currentDiffIndex]. rewrite IHn in *. rewrite IHp in *.
    set (n := Z.of_nat count) in *.
    replace (Z.of_nat (S k)) with (Z.of_nat k + 1)%Z by lia.
    pose proof (Z.div_mod (Z.of_nat k) n ltac:(lia)) as Dn.
    pose proof (Z.div_mod (- Z.of_nat k) n ltac:(lia)) as Dp.
    split.
    + destruct (Z.ltb_spec (Z.of_nat k mod n + 1) 0); [lia|].
      destruct (Z.geb_spec (Z.of_nat k mod n + 1) n).
      * apply (Z.mod_unique _ _ (Z.of_nat k / n + 1)); lia.
      * apply (Z.mod_unique _ _ (Z.of_nat k / n)); lia.
    + destruct (Z.ltb_spec ((- Z.of_nat k) mod n - 1) 0).
      * destruct (Z.geb_spec (n - 1) n); [lia|].
        apply (Z.mod_unique _ _ (- Z.of_nat k / n - 1)); lia.
      * destruct (Z.geb_spec ((- Z.of_nat k) mod n - 1) n); [lia|].
        apply (Z.mod_unique _ _ (- Z.of_nat k / n)); lia.
Qed.

Lemma navigation_cycles_witness :
  currentDiffIndex (navRun 3 (repeat NextDiff 4)) = 1%Z
  /\ currentDiffIndex (navRun 3 (repeat PrevDiff 4)) = 2%Z.
Proof. apply (navigation_cycles 3 4). lia. Defined.

(** ** Editing and saving in the page *)

Lemma pageRun_snoc (p : Page) (events : list PageEvent) (e : PageEvent) :
  pageRun p (events ++ [e]) = pageStep (pageRun p events) e.
Proof. unfold pageRun. now rewrite fold_left_app. Qed.

Lemma pageStep_statusAgrees (p : Page) (e : PageEvent) :
  statusAgrees (file1Changed p) (file1Status p) ->
  statusAgrees (file2Changed p) (file2Status p) ->
  statusAgrees (file1Changed (pageStep p e)) (file1Status (pageStep p e))
  /\ statusAgrees (file2Changed (pageStep p e)) (file2Status (pageStep p e)).
Proof.
  intros H1 H2. destruct p as [c1 c2 s1 s2 l1 l2 msgs]. cbn in H1, H2.
  assert (U : forall b v, statusAgrees true (statusView StatusUnsaved)
                          /\ statusAgrees true (statusView StatusSaving)
                          /\ statusAgrees false (statusView StatusSaved)
                          /\ (statusAgrees b v -> b = b))
    by (unfold statusAgrees; cbn; intuition auto).
  destruct (U true s1) as (Hu & Hs & Hc & _).
  destruct e as [n m l| | |f|]; cbn.
  - unfold handleContentChange, setLines.
    destruct m; cbn; destruct (n =? 1)%nat; cbn; auto.
  - destruct c1; cbn; auto.
  - destruct c2; cbn; auto.
  - destruct (f =? 1)%nat; cbn; auto.
  - auto.
Qed.

(** X16.  After any events, each column of the page shows a status exactly
    when its changed flag is set: a clear flag goes with an empty status
    text and neither class, a set flag with the text and the class of
    unsaved changes or with the text and the class of saving, never with
    both classes. *)
Theorem status_follows_flag :
  forall (lines1 lines2 : list str) (events : list PageEvent),
    statusAgrees (file1Changed (pageRun (pageStart lines1 lines2) events))
                 (file1Status (pageRun (pageStart lines1 lines2) events))
    /\ statusAgrees (file2Changed (pageRun (pageStart lines1 lines2) events))
                    (file2Status (pageRun (pageStart lines1 lines2) events)).
Proof.
  intros lines1 lines2 events.
  induction events as [|e events IH] using rev_ind.
  - split; left; split; reflexivity.
  - rewrite pageRun_snoc. destruct IH as [H1 H2].
    now apply pageStep_statusAgrees.
Qed.

Lemma editedLeft_snoc (events : list PageEvent) (e : PageEvent) :
  editedLeft events = true -> editedLeft (events ++ [e]) = true.
Proof. intro H. unfold editedLeft in *. now rewrite existsb_app, H. Qed.

Lemma editedRight_snoc (events : list PageEvent) (e : PageEvent) :
  editedRight events = true -> editedRight (events ++ [e]) = true.
Proof. intro H. unfold editedRight in *. now rewrite existsb_app, H. Qed.

Lemma posted_after_input (lines1 lines2 : list str) (events : list PageEvent) :
  (file1Changed (pageRun (pageStart lines1 lines2) events) = true ->
   editedLeft events = true)
  /\ (file2Changed (pageRun (pageStart lines1 lines2) events) = true ->
      editedRight events = true)
  /\ Forall (fun m => (saveFile m = 1 /\ editedLeft events = true)
                      \/ (saveFile m = 2 /\ editedRight events = true))
       (posted (pageRun (pageStart lines1 lines2) events)).
Proof.
  induction events as [|e events (I1 & I2 & IP)] using rev_ind.
  - cbn. repeat split; try discriminate. constructor.
  - rewrite pageRun_snoc.
    assert (IP' : Forall (fun m => (saveFile m = 1 /\ editedLeft (events ++ [e]) = true)
                                   \/ (saveFile m = 2
                                       /\ editedRight (events ++ [e]) = true))
                    (posted (pageRun (pageStart lines1 lines2) events))).
    { eapply Forall_impl; [|exact IP]. cbn beta.
      intros m [[? ?]|[? ?]];
        [left|right]; split; auto using editedLeft_snoc, editedRight_snoc. }
    destruct (pageRun (pageStart lines1 lines2) events)
      as [c1 c2 s1 s2 l1 l2 msgs]. cbn in I1, I2, IP'.
    destruct e as [n m l| | |f|]; cbn.
    + unfold handleContentChange, setLines, editedLeft, editedRight.
      rewrite !existsb_app. cbn [existsb].
      destruct m; cbn; destruct (n =? 1)%nat eqn:En; cbn;
        rewrite ?Bool.orb_false_r, ?Bool.orb_true_r;
        repeat split; auto;
        try (eapply Forall_impl; [|exact IP]; cbn beta;
             intros x [[? ?]|[? ?]]; [left|right]; split; auto;
             rewrite ?Bool.orb_false_r, ?Bool.orb_true_r; auto).
    + destruct c1; cbn; repeat split; auto using editedLeft_snoc, editedRight_snoc.
      apply Forall_app. split; [exact IP'|].
      constructor; [|constructor]. left. cbn. auto using editedLeft_snoc.
    + destruct c2; cbn; repeat split; auto using editedLeft_snoc, editedRight_snoc.
      apply Forall_app. split; [exact IP'|].
      constructor; [|constructor]. right. cbn. auto using editedRight_snoc.
    + destruct (f =? 1)%nat; cbn; repeat split;
        auto using editedLeft_snoc, editedRight_snoc; discriminate.
    + repeat split; auto using editedLeft_snoc, editedRight_snoc.
Qed.

(** X17.  Every save message the page posts carries the file number 1 or 2,
    and one is posted for a column only after an input event on a line of
    that column: a column that was never edited is never saved. *)
Theorem save_only_after_input :
  forall (lines1 lines2 : list str) (events : list PageEvent),
    Forall (fun m => (saveFile m = 1 /\ editedLeft events = true)
                     \/ (saveFile m = 2 /\ editedRight events = true))
      (posted (pageRun (pageStart lines1 lines2) events)).
Proof. intros. apply posted_after_input. Qed.

(** ** Saving through the panel *)

Lemma skipn_length_app {A : Type} (l more : list A) :
  skipn (length l) (l ++ more) = more.
Proof. induction l as [|x l IH]; [reflexivity|exact IH]. Qed.

Section Saving.

Variable Uri : Type.
Variable _file1Uri _file2Uri : Uri.

(** X18.  The page and the panel agree on the file numbers.  A click on
    Save Left with changes in the left column makes the panel write the
    lines of the left column, joined by line feeds, to the first file and
    to no other, and once the reply is delivered the left column is clean
    and the right column is as before; Save Right does the same with the
    second file.  When the write fails the panel shows the error and sends
    no reply, and the column stays in the saving status with its flag set.
    Without changes in the column a click does nothing. *)
Theorem save_round_trip :
  forall (p : Page) (error : str),
    (file1Changed p = true ->
     saveRoundTrip Uri _file1Uri _file2Uri None p SaveLeftClick
     = (mkPage false (file2Changed p) (mkStatusView "" false false) (file2Status p)
          (file1Lines p) (file2Lines p)
          (posted p ++ [mkSave 1 (joinLines (file1Lines p))]),
        [WriteFile Uri _file1Uri (joinLines (file1Lines p)); PostSaved Uri 1])
     /\ saveRoundTrip Uri _file1Uri _file2Uri (Some error) p SaveLeftClick
        = (mkPage true (file2Changed p) (mkStatusView "(saving...)" false true)
             (file2Status p) (file1Lines p) (file2Lines p)
             (posted p ++ [mkSave 1 (joinLines (file1Lines p))]),
           [WriteFile Uri _file1Uri (joinLines (file1Lines p));
            ShowErrorMessage Uri (lit "Failed to save file: " ++ error)]))
    /\ (file2Changed p = true ->
        saveRoundTrip Uri _file1Uri _file2Uri None p SaveRightClick
        = (mkPage (file1Changed p) false (file1Status p) (mkStatusView "" false false)
             (file1Lines p) (file2Lines p)
             (posted p ++ [mkSave 2 (joinLines (file2Lines p))]),
           [WriteFile Uri _file2Uri (joinLines (file2Lines p)); PostSaved Uri 2])
        /\ saveRoundTrip Uri _file1Uri _file2Uri (Some error) p SaveRightClick
           = (mkPage (file1Changed p) true (file1Status p)
                (mkStatusView "(saving...)" false true)
                (file1Lines p) (file2Lines p)
                (posted p ++ [mkSave 2 (joinLines (file2Lines p))]),
              [WriteFile Uri _file2Uri (joinLines (file2Lines p));
               ShowErrorMessage Uri (lit "Failed to save file: " ++ error)]))
    /\ (file1Changed p = false ->
        forall writeError,
          saveRoundTrip Uri _file1Uri _file2Uri writeError p SaveLeftClick = (p, []))
    /\ (file2Changed p = false ->
        forall writeError,
          saveRoundTrip Uri _file1Uri _file2Uri writeError p SaveRightClick = (p, [])).
Proof.
  intros [c1 c2 s1 s2 l1 l2 msgs] error. cbn [file1Changed file2Changed].
  split; [|split; [|split]].
  - intros ->. unfold saveRoundTrip. cbn. rewrite skipn_length_app.
    split; reflexivity.
  - intros ->. unfold saveRoundTrip. cbn. rewrite skipn_length_app.
    split; reflexivity.
  - intros -> writeError. unfold saveRoundTrip. cbn. now rewrite skipn_all.
  - intros -> writeError. unfold saveRoundTrip. cbn. now rewrite skipn_all.
Qed.

End Saving.

Lemma save_round_trip_witness :
  saveRoundTrip str (lit "left.txt") (lit "right.txt") None
    (pageStep (pageStart [lit "a"] [lit "b"]) (Input 1 true [lit "c"]))
    SaveLeftClick
  = (mkPage false false (mkStatusView "" false false) (mkStatusView "" false false)
       [lit "c"] [lit "b"] [mkSave 1 (lit "c")],
     [WriteFile str (lit "left.txt") (lit "c"); PostSaved str 1]).
Proof.
  apply (proj1 (save_round_trip str (lit "left.txt") (lit "right.txt")
                  (pageStep (pageStart [lit "a"] [lit "b"]) (Input 1 true [lit "c"]))
                  [])).
  reflexivity.
Defined.

(** ** The files offered by the command *)

Lemma str_eqb_refl (a : str) : str_eqb a a = true.
Proof.
  induction a as [|x a IH]; [reflexivity|].
  cbn. now rewrite Ascii.eqb_refl, IH.
Qed.

Lemma str_eqb_sym (a b : str) : str_eqb a b = str_eqb b a.
Proof.
  destruct (str_eqb a b) eqn:E.
  - apply str_eqb_eq in E. subst b. symmetry. apply str_eqb_refl.
  - destruct (str_eqb b a) eqn:E'; [|reflexivity].
    apply str_eqb_eq in E'. subst b. now rewrite str_eqb_refl in E.
Qed.

Section Offered.

Variable Uri : Type.
Variable fsPath : Uri -> str.
Variable asRelativePath : Uri -> str.

Lemma openEditors_In (fileUri : Uri) (textDocuments : list (TextDocument Uri))
    (u : Uri) :
  In u (openEditors Uri fsPath fileUri textDocuments) ->
  samePath Uri fsPath u fileUri = false.
Proof.
  unfold openEditors. rewrite in_map_iff. intros (doc & <- & Hdoc).
  apply filter_In in Hdoc as [_ H]. apply Bool.andb_true_iff in H as [_ H].
  now apply Bool.negb_true_iff in H.
Qed.

Lemma itemUri_fileItems (fileUri : Uri) (textDocuments : list (TextDocument Uri))
    (files : list Uri) (item : QuickPickItem Uri) (u : Uri) :
  In item (fileItems Uri fsPath asRelativePath fileUri textDocuments files) ->
  itemUri Uri item = Some u ->
  (In u (openEditors Uri fsPath fileUri textDocuments)
   /\ In item (recentSection Uri fsPath asRelativePath fileUri textDocuments))
  \/ (In u files
      /\ samePath Uri fsPath u fileUri = false
      /\ existsb (fun editor => samePath Uri fsPath editor u)
           (openEditors Uri fsPath fileUri textDocuments) = false
      /\ In item (workspaceSection Uri fsPath asRelativePath fileUri
                    textDocuments files)).
Proof.
  unfold fileItems. intros Hin Hu.
  destruct Hin as [<-|Hin]; [discriminate Hu|].
  apply in_app_or in Hin as [Hin|Hin].
  - left. split; [|exact Hin]. unfold recentSection in Hin.
    apply in_map_iff in Hin as (e & <- & He). cbn in Hu. now injection Hu as <-.
  - destruct Hin as [<-|Hin]; [discriminate Hu|].
    apply in_app_or in Hin as [Hin|Hin].
    + right. pose proof Hin as Hitem. unfold workspaceSection in Hin.
      apply in_map_iff in Hin as (w & <- & Hw). cbn in Hu. injection Hu as <-.
      apply filter_In in Hw as [Hw H]. apply Bool.andb_true_iff in H as [H1 H2].
      apply Bool.negb_true_iff in H1, H2. auto.
    + destruct Hin as [<-|[<-|[]]]; discriminate Hu.
Qed.

(** X19.  The quick pick never offers the file the command was invoked on,
    nor any file of the same path; and a path offered among the workspace
    files is not among the recently used ones. *)
Theorem quick_pick_excludes_the_file :
  forall (fileUri : Uri) (textDocuments : list (TextDocument Uri))
         (files : list Uri),
    Forall (fun item =>
              match itemUri Uri item with
              | Some u => samePath Uri fsPath u fileUri = false
              | None => True
              end)
      (fileItems Uri fsPath asRelativePath fileUri textDocuments files)
    /\ Forall (fun item =>
                 match itemUri Uri item with
                 | Some u =>
                     Forall (fun recent =>
                               match itemUri Uri recent with
                               | Some editor => samePath Uri fsPath editor u = false
                               | None => True
                               end)
                       (recentSection Uri fsPath asRelativePath fileUri textDocuments)
                 | None => True
                 end)
         (workspaceSection Uri fsPath asRelativePath fileUri textDocuments files).
Proof.
  intros fileUri textDocuments files. split.
  - apply Forall_forall. intros item Hin.
    destruct (itemUri Uri item) as [u|] eqn:Hu; [|exact I].
    destruct (itemUri_fileItems fileUri textDocuments files item u Hin Hu)
      as [[H _]|(_ & H & _)]; [now apply openEditors_In in H|exact H].
  - apply Forall_forall. intros item Hin.
    unfold workspaceSection in Hin. apply in_map_iff in Hin as (w & <- & Hw).
    cbn [itemUri]. apply filter_In in Hw as [_ H].
    apply Bool.andb_true_iff in H as [_ H]. apply Bool.negb_true_iff in H.
    apply Forall_forall. intros recent Hr.
    unfold recentSection in Hr. apply in_map_iff in Hr as (e & <- & He).
    cbn [itemUri].
    destruct (samePath Uri fsPath e w) eqn:E; [|reflexivity].
    assert (existsb (fun editor => samePath Uri fsPath editor w)
              (openEditors Uri fsPath fileUri textDocuments) = true)
      by (apply existsb_exists; eauto).
    congruence.
Qed.


(** X21.  From the context menu, when the quick pick answers with one of
    its items, the command opens the panel on the file it was invoked on
    and a second file; that second file has another path unless it came
    from the file dialog behind "Open another file...".  Without an answer
    the command does nothing. *)
Theorem context_menu_second_file
    (fileUri : Uri) (twoFiles : option (list Uri))
    (textDocuments : list (TextDocument Uri)) (files : list Uri)
    (showQuickPick : list (QuickPickItem Uri) -> option (QuickPickItem Uri))
    (openDialog : option (list Uri)) :
  (forall items item, showQuickPick items = Some item -> In item items) ->
  (compareCommand Uri fsPath asRelativePath (Some fileUri) twoFiles
     textDocuments files showQuickPick openDialog = []
   \/ exists second,
        compareCommand Uri fsPath asRelativePath (Some fileUri) twoFiles
          textDocuments files showQuickPick openDialog
        = [CreateOrShow Uri fileUri second]
        /\ (samePath Uri fsPath second fileUri = false
            \/ openDialog = Some [second]))
  /\ (showQuickPick (fileItems Uri fsPath asRelativePath fileUri textDocuments files)
      = None ->
      compareCommand Uri fsPath asRelativePath (Some fileUri) twoFiles
        textDocuments files showQuickPick openDialog = []).
Proof.
  intro Hpick. unfold compareCommand.
  destruct (showQuickPick
              (fileItems Uri fsPath asRelativePath fileUri textDocuments files))
    as [item|] eqn:E; [|split; [now left|reflexivity]].
  split; [|discriminate].
  apply Hpick in E.
  destruct (itemUri Uri item) as [u|] eqn:Hu.
  - right. exists u. split; [reflexivity|]. left.
    destruct (itemUri_fileItems fileUri textDocuments files item u E Hu)
      as [[H _]|(_ & H & _)]; [now apply openEditors_In in H|exact H].
  - destruct openDialog as [[|u [|v more]]|]; try (now left).
    right. exists u. split; [reflexivity|now right].
Qed.

End Offered.


Lemma context_menu_second_file_witness :
  compareCommand str (fun u => u) (fun u => u) (Some (lit "a.txt")) None
    [] [lit "a.txt"; lit "b.txt"] (fun items => nth_error items 2) None
  = [CreateOrShow str (lit "a.txt") (lit "b.txt")].
Proof.
  destruct (proj1 (context_menu_second_file str (fun u => u) (fun u => u)
                     (lit "a.txt") None [] [lit "a.txt"; lit "b.txt"]
                     (fun items => nth_error items 2) None
                     (fun items item H => nth_error_In items 2 H)))
    as [H|_]; [discriminate H|reflexivity].
Defined.
